(** * Bob-Firmware: sensor drivers, NMEA line framer and telemetry packet

    A shallow embedding of

    - [lib/qmc5883l/qmc5883l.c]  (magnetometer driver),
    - [lib/hp203b/hp203b.h]      (barometer driver interface),
    - [src/hat.cpp]              (UART line framer [uartRX], [struct packet]),

    followed by the properties of these functions. *)

From Stdlib Require Import ZArith Lia Bool.
From Stdlib Require Import String Ascii.
From Stdlib.Strings Require Import Byte.
From stdpp Require Import base list.

Local Open Scope Z_scope.

(** ** C integer conversions *)

(** Conversion to [uint8_t], [int8_t], [int16_t] and [int32_t]: reduction
    modulo [2^w], signed types re-centred. *)
Definition to_uint8 (x : Z) : Z := x mod 256.
Definition to_int8 (x : Z) : Z := (x + 128) mod 256 - 128.
Definition to_int16 (x : Z) : Z := (x + 32768) mod 65536 - 32768.
Definition to_int32 (x : Z) : Z := (x + 2147483648) mod 4294967296 - 2147483648.

(** [buffer[k]] of a byte buffer held as a list. *)
Definition byte_at (buffer : list Z) (k : nat) : Z := nth k buffer 0.

(** ** The I2C bus

    The drivers reach their chip through the two pico-sdk calls
    [i2c_write_timeout_per_char_us] and [i2c_read_timeout_per_char_us].
    Both return the number of bytes transferred or a negative error code.
    The bus and the devices behind [sensor->i2c] are a state [W] threaded
    through every call. *)

Definition io (W A : Type) : Type := W -> A * W.

Definition ret {W A} (a : A) : io W A := fun w => (a, w).

Definition bind {W A B} (m : io W A) (k : A -> io W B) : io W B :=
  fun w => let (a, w1) := m w in k a w1.

Notation "'let*' x := m 'in' k" := (bind m (fun x => k))
  (at level 10, x name, m at level 100, k at level 200).
Notation "'let*' ' pat := m 'in' k" :=
  (bind m (fun x => match x with pat => k end))
  (at level 10, pat pattern, m at level 100, k at level 200).

Class i2c_bus (W : Type) : Type := {
  (** [i2c_write_timeout_per_char_us i2c addr src len nostop timeout]:
      [src] carries its [len] bytes. *)
  i2c_write_timeout_per_char_us : Z -> list Z -> bool -> Z -> io W Z;
  (** [i2c_read_timeout_per_char_us i2c addr dst len nostop timeout]:
      the result is the return value and the bytes placed in [dst]. *)
  i2c_read_timeout_per_char_us : Z -> Z -> bool -> Z -> io W (Z * list Z)
}.

(** Error codes of the bus layer (pico-sdk); [QMCGetStatus] tests the
    timeout against the literal [-1]. *)
Definition PICO_ERROR_TIMEOUT : Z := -1.
Definition PICO_ERROR_GENERIC : Z := -2.

(** What a transfer of [len] bytes can report: an error code or a count
    of at most [len]. *)
Definition bus_result (len r : Z) : Prop :=
  r = PICO_ERROR_TIMEOUT \/ r = PICO_ERROR_GENERIC \/ 0 <= r <= len.

(** ** qmc5883l: the magnetometer driver *)

(** The constants of [qmc5883l.h]. The header is not part of the sources at
    hand, so the driver is embedded for every choice of its constants. *)
Class qmc5883l_h : Type := {
  QMC_ADDR : Z;
  QMC_TIMEOUT : Z;
  (* enum QMCRegister *)
  QMC_XOUT_LSB : Z;
  QMC_STATUS : Z;
  QMC_TEMP_LSB : Z;
  QMC_TEMP_MSB : Z;
  QMC_CONTROL1 : Z;
  QMC_CONTROL2 : Z;
  QMC_SETRESET : Z;
  (* status register bits *)
  QMC_DRDY : Z;
  QMC_DOVL : Z;
  QMC_DSKIP : Z;
  (* control register fields *)
  QMC_MODE_SHIFT : Z;
  QMC_ODR_SHIFT : Z;
  QMC_OSR_SHIFT : Z;
  QMC_SCALE_SHIFT : Z;
  QMC_ROL_PNT : Z;
  QMC_INT_ENB : Z;
  QMC_STANDBY : Z;
  (* return codes *)
  QMC_OK : Z;
  QMC_ERROR_TIMEOUT : Z;
  QMC_ERROR_GENERIC : Z;
  QMC_ERROR_INVALID : Z;
  QMC_ERROR_STANDBY : Z
}.

(** [struct qmc_cfg]. *)
Record qmc_cfg : Type := {
  mode : Z;
  ODR : Z;
  OSR : Z;
  scale : Z;
  pointerRoll : Z;
  enableInterrupt : Z;
  control : Z * Z
}.

(** [qmc_t]; its [i2c] member is the bus state [W] of the [io] monad. *)
Record qmc_t : Type := { config : qmc_cfg }.

(** [struct qmc_status]. *)
Record qmc_status : Type := {
  dataReady : bool;
  dataOverflow : bool;
  dataSkip : bool
}.

Section Driver.
Context {W : Type} {bus : i2c_bus W} {h : qmc5883l_h}.

(** Wrapper around i2c write function *)
Definition QMCWriteByte (sensor : qmc_t) (reg value : Z) : io W Z :=
  let buffer := [to_uint8 reg; to_uint8 value] in
  i2c_write_timeout_per_char_us QMC_ADDR buffer true QMC_TIMEOUT.

(** Wrapper around i2c read function. The value returned by the write of
    the register selector is dropped. *)
Definition QMCReadBytes (sensor : qmc_t) (reg : Z) (len : Z)
  : io W (Z * list Z) :=
  let regShort := to_uint8 reg in
  let* _ := i2c_write_timeout_per_char_us QMC_ADDR [regShort] true
              QMC_TIMEOUT in
  i2c_read_timeout_per_char_us QMC_ADDR len false QMC_TIMEOUT.

Definition QMCGetStatus (sensor : qmc_t) (status : qmc_status)
  : io W (Z * qmc_status) :=
  let* '(r, buffer) := QMCReadBytes sensor QMC_STATUS 1 in
  let reg := byte_at buffer 0 in
  let i2cState := to_int8 r in
  if i2cState =? 1 then
    ret (0,
         {| dataReady := negb (Z.land reg (Z.shiftl 1 QMC_DRDY) =? 0);
            dataOverflow := negb (Z.land reg (Z.shiftl 1 QMC_DOVL) =? 0);
            dataSkip := negb (Z.land reg (Z.shiftl 1 QMC_DSKIP) =? 0) |})
  else
    ret (to_int8 (if i2cState =? -1 then QMC_ERROR_TIMEOUT
                  else QMC_ERROR_GENERIC), status).

(** The two control bytes [QMCSetCfg] computes into [config.control]. *)
Definition pack_control (cfg : qmc_cfg) : qmc_cfg :=
  let control0 :=
    to_uint8 (Z.lor (Z.lor (Z.lor (Z.shiftl (mode cfg) QMC_MODE_SHIFT)
                                  (Z.shiftl (ODR cfg) QMC_ODR_SHIFT))
                           (Z.shiftl (OSR cfg) QMC_OSR_SHIFT))
                    (Z.shiftl (scale cfg) QMC_SCALE_SHIFT)) in
  let control1 :=
    to_uint8 (Z.lor (Z.shiftl (pointerRoll cfg) QMC_ROL_PNT)
                    (Z.shiftl (enableInterrupt cfg) QMC_INT_ENB)) in
  {| mode := mode cfg; ODR := ODR cfg; OSR := OSR cfg; scale := scale cfg;
     pointerRoll := pointerRoll cfg;
     enableInterrupt := enableInterrupt cfg;
     control := (control0, control1) |}.

Definition QMCSetCfg (sensor : qmc_t) (cfg : qmc_cfg) : io W (Z * qmc_t) :=
  let cfg := pack_control cfg in
  let* r0 := QMCWriteByte sensor QMC_CONTROL1 (fst (control cfg)) in
  let* r1 := QMCWriteByte sensor QMC_CONTROL2 (snd (control cfg)) in
  let i2cState0 := to_int8 r0 in
  let i2cState1 := to_int8 r1 in
  if (i2cState0 =? 2) && (i2cState1 =? 2) then
    ret (0, {| config := cfg |})
  else
    (* Return the worst bad error. *)
    ret (if i2cState0 <? i2cState1 then i2cState0 else i2cState1, sensor).

Definition QMCGetCfg (sensor : qmc_t) : io W (Z * qmc_t) :=
  let* '(r0, buffer0) := QMCReadBytes sensor QMC_CONTROL1 1 in
  let* '(r1, buffer1) := QMCReadBytes sensor QMC_CONTROL2 1 in
  let i2cState0 := to_int8 r0 in
  let i2cState1 := to_int8 r1 in
  let b0 := byte_at buffer0 0 in
  if (i2cState0 =? 1) && (i2cState1 =? 1) then
    let cfg := config sensor in
    let cfg' :=
      {| ODR := Z.land (Z.shiftr b0 QMC_ODR_SHIFT) 3;
         OSR := Z.land (Z.shiftr b0 QMC_OSR_SHIFT) 3;
         mode := Z.land b0 1;
         scale := Z.land (Z.shiftr b0 QMC_SCALE_SHIFT) 1;
         pointerRoll := pointerRoll cfg;
         enableInterrupt := enableInterrupt cfg;
         control := control cfg |} in
    let invalid := negb (Z.land b0 34 =? 0) in  (* buffer[0] & 0x22 *)
    ret (to_int8 (if invalid then QMC_ERROR_INVALID else QMC_OK),
         {| config := cfg' |})
  else
    ret (if i2cState0 <? i2cState1 then i2cState0 else i2cState1, sensor).

Definition QMCTest (sensor : qmc_t) : io W (Z * qmc_t) :=
  let* '(cfgStatus, sensor) := QMCGetCfg sensor in
  if cfgStatus =? 0 then
    if negb (mode (config sensor) =? QMC_STANDBY)
    then ret (to_int8 QMC_OK, sensor)
    else ret (to_int8 QMC_ERROR_STANDBY, sensor)
  else ret (cfgStatus, sensor).

(** Little-endian pair [lo | (hi << 8)] stored into an [int16_t]. *)
Definition le16 (lo hi : Z) : Z := to_int16 (Z.lor lo (Z.shiftl hi 8)).

Definition QMCGetMag (sensor : qmc_t) (data : Z * Z * Z)
  : io W (Z * (Z * Z * Z)) :=
  let* '(r, buffer) := QMCReadBytes sensor QMC_XOUT_LSB 6 in
  let i2cState := to_int8 r in
  let data :=
    if i2cState =? 6 then
      (le16 (byte_at buffer 0) (byte_at buffer 1),
       le16 (byte_at buffer 2) (byte_at buffer 3),
       le16 (byte_at buffer 4) (byte_at buffer 5))
    else data in
  ret (to_int8 (if i2cState =? QMC_ERROR_TIMEOUT then QMC_ERROR_TIMEOUT
                else QMC_ERROR_GENERIC), data).

Definition QMCGetTemp (sensor : qmc_t) (result : Z) : io W (Z * Z) :=
  let* '(r0, buffer0) := QMCReadBytes sensor QMC_TEMP_LSB 1 in
  let* '(r1, buffer1) := QMCReadBytes sensor QMC_TEMP_MSB 1 in
  let i2cState0 := to_int8 r0 in
  let i2cState1 := to_int8 r1 in
  if (i2cState0 =? 1) && (i2cState1 =? 1) then
    ret (0, le16 (byte_at buffer0 0) (byte_at buffer1 0))
  else
    ret (if i2cState0 <? i2cState1 then i2cState0 else i2cState1, result).

(** Creates a [qmc_t]: soft reset, then a first read of the
    configuration. The cached configuration starts from [cfg0], the
    contents of the uninitialised local. *)
Definition QMCInit (cfg0 : qmc_cfg) : io W qmc_t :=
  let sensor := {| config := cfg0 |} in
  let* _ := QMCWriteByte sensor QMC_SETRESET 1 in
  let* '(_, sensor) := QMCGetCfg sensor in
  ret sensor.

End Driver.

(** The bits a field of [width] bits at [shift] occupies. *)
Definition field_mask (width shift : Z) : Z := Z.shiftl (Z.ones width) shift.

(** A layout of control register 1 under which [QMCSetCfg] and [QMCGetCfg]
    speak of the same bits: [mode] sits at bit 0, where [QMCGetCfg] reads it
    with [buffer[0] & 1], and the one-bit [mode] and [scale] and the two-bit
    [ODR] and [OSR] lie inside the byte without sharing a bit. *)
Definition fields_apart (sm so sr ss : Z) : bool :=
  let m := field_mask 1 sm in
  let o := field_mask 2 so in
  let r := field_mask 2 sr in
  let s := field_mask 1 ss in
  (sm =? 0) && (0 <=? so) && (0 <=? sr) && (0 <=? ss) &&
  (o <=? 255) && (r <=? 255) && (s <=? 255) &&
  (Z.land m o =? 0) && (Z.land m r =? 0) && (Z.land m s =? 0) &&
  (Z.land o r =? 0) && (Z.land o s =? 0) && (Z.land r s =? 0).

Definition control1_fields_apart {h : qmc5883l_h} : bool :=
  fields_apart QMC_MODE_SHIFT QMC_ODR_SHIFT QMC_OSR_SHIFT QMC_SCALE_SHIFT.

(** The field values of [struct qmc_cfg] fit the width of their field. *)
Definition fields_fit (cfg : qmc_cfg) : Prop :=
  0 <= mode cfg < 2 /\ 0 <= ODR cfg < 4 /\
  0 <= OSR cfg < 4 /\ 0 <= scale cfg < 2.

(** Every placement of the fields in a byte and every field value, to
    check the packing against the decoding by computation. *)
Definition Zrange (n : nat) : list Z := Z.of_nat <$> seq 0 n.


(** The byte [QMCSetCfg] packs, decoded the way [QMCGetCfg] decodes it. *)
Definition decodes (so sr ss m o r s : Z) : bool :=
  let b := to_uint8 (Z.lor (Z.lor (Z.lor (Z.shiftl m 0) (Z.shiftl o so))
                                  (Z.shiftl r sr))
                           (Z.shiftl s ss)) in
  (Z.land b 1 =? m) && (Z.land (Z.shiftr b so) 3 =? o) &&
  (Z.land (Z.shiftr b sr) 3 =? r) && (Z.land (Z.shiftr b ss) 1 =? s).

Definition layout_sweep : bool :=
  forallb (fun so => forallb (fun sr => forallb (fun ss =>
    implb (fields_apart 0 so sr ss)
      (forallb (fun m => forallb (fun o => forallb (fun r => forallb (fun s =>
         decodes so sr ss m o r s)
       (Zrange 2)) (Zrange 4)) (Zrange 4)) (Zrange 2)))
  (Zrange 8)) (Zrange 8)) (Zrange 8).

(** ** Buses to run the driver on *)

(** A bus stub on which every write and every read reports a timeout. *)
Definition stub_timeout : i2c_bus unit := {|
  i2c_write_timeout_per_char_us := fun _ _ _ _ w => (PICO_ERROR_TIMEOUT, w);
  i2c_read_timeout_per_char_us := fun _ _ _ _ w => ((PICO_ERROR_TIMEOUT, []), w)
|}.

(** A QMC5883L on the bus: its register file, its register pointer, and the
    fate of the coming transfers. [Done] transfers every byte; a transfer
    that is [TimedOut] or [NotAcked] moves nothing and reports the bus
    layer's error code. Once [line] is used up every transfer is [Done]. *)
Inductive transfer : Type :=
| Done
| TimedOut
| NotAcked.

Record qmc_chip : Type := {
  regs : Z -> Z;
  pointer : Z;
  line : list transfer
}.

Definition with_line (c : qmc_chip) (l : list transfer) : qmc_chip :=
  {| regs := regs c; pointer := pointer c; line := l |}.

(** What a transfer of [len] bytes reports. *)
Definition reported (len : Z) (t : transfer) : Z :=
  match t with
  | Done => len
  | TimedOut => PICO_ERROR_TIMEOUT
  | NotAcked => PICO_ERROR_GENERIC
  end.

Definition next_transfer (c : qmc_chip) : transfer * qmc_chip :=
  match line c with
  | [] => (Done, c)
  | t :: rest => (t, with_line c rest)
  end.

Definition set_reg (r : Z -> Z) (reg value : Z) : Z -> Z :=
  fun a => if a =? reg then value else r a.

(** A write addressed to the chip: the first byte selects the register, a
    second byte is stored there. Another address is not acknowledged. *)
Definition chip_write {h : qmc5883l_h}
  (addr : Z) (src : list Z) (nostop : bool) (timeout : Z) : io qmc_chip Z :=
  fun c =>
    let (t, c) := next_transfer c in
    match t with
    | TimedOut => (PICO_ERROR_TIMEOUT, c)
    | NotAcked => (PICO_ERROR_GENERIC, c)
    | Done =>
      if addr =? QMC_ADDR then
        match src with
        | [] => (0, c)
        | [reg] =>
          (1, {| regs := regs c; pointer := reg; line := line c |})
        | reg :: value :: _ =>
          (Z.of_nat (length src),
           {| regs := set_reg (regs c) reg value; pointer := reg;
              line := line c |})
        end
      else (PICO_ERROR_GENERIC, c)
    end.

(** A read returns [len] registers starting at the register pointer. *)
Definition chip_read {h : qmc5883l_h}
  (addr : Z) (len : Z) (nostop : bool) (timeout : Z)
  : io qmc_chip (Z * list Z) :=
  fun c =>
    let (t, c) := next_transfer c in
    match t with
    | TimedOut => ((PICO_ERROR_TIMEOUT, []), c)
    | NotAcked => ((PICO_ERROR_GENERIC, []), c)
    | Done =>
      if addr =? QMC_ADDR then
        ((len, (fun k => regs c (pointer c + Z.of_nat k))
                 <$> seq 0 (Z.to_nat len)), c)
      else ((PICO_ERROR_GENERIC, []), c)
    end.

Definition chip_bus {h : qmc5883l_h} : i2c_bus qmc_chip := {|
  i2c_write_timeout_per_char_us := chip_write;
  i2c_read_timeout_per_char_us := chip_read
|}.

(** The flags [QMCGetStatus] decodes from a status byte. *)
Definition flags_of {h : qmc5883l_h} (reg : Z) : qmc_status := {|
  dataReady := negb (Z.land reg (Z.shiftl 1 QMC_DRDY) =? 0);
  dataOverflow := negb (Z.land reg (Z.shiftl 1 QMC_DOVL) =? 0);
  dataSkip := negb (Z.land reg (Z.shiftl 1 QMC_DSKIP) =? 0)
|}.

(** One header to run the driver with: register addresses and bit positions
    of the QMC5883L register map, return codes numbered as [hp203b.h]
    numbers its own. *)
Definition qmc_register_map : qmc5883l_h := {|
  QMC_ADDR := 13;
  QMC_TIMEOUT := 1000;
  QMC_XOUT_LSB := 0;
  QMC_STATUS := 6;
  QMC_TEMP_LSB := 7;
  QMC_TEMP_MSB := 8;
  QMC_CONTROL1 := 9;
  QMC_CONTROL2 := 10;
  QMC_SETRESET := 11;
  QMC_DRDY := 0;
  QMC_DOVL := 1;
  QMC_DSKIP := 2;
  QMC_MODE_SHIFT := 0;
  QMC_ODR_SHIFT := 2;
  QMC_OSR_SHIFT := 6;
  QMC_SCALE_SHIFT := 4;
  QMC_ROL_PNT := 6;
  QMC_INT_ENB := 0;
  QMC_STANDBY := 0;
  QMC_OK := 0;
  QMC_ERROR_TIMEOUT := -1;
  QMC_ERROR_GENERIC := -2;
  QMC_ERROR_INVALID := -3;
  QMC_ERROR_STANDBY := -4
|}.

Definition cfg0 : qmc_cfg := {|
  mode := 0; ODR := 0; OSR := 0; scale := 0;
  pointerRoll := 0; enableInterrupt := 0; control := (0, 0)
|}.

Definition chip0 (l : list transfer) : qmc_chip :=
  {| regs := fun _ => 0; pointer := 0; line := l |}.

(** ** hat.cpp: the UART line framer *)

Import ByteNotations.

Definition MINMEA_MAX_SENTENCE_LENGTH : Z := 80.

(** The static variables of the file and of [uartRX]. *)
Record framer : Type := {
  uartBuf : list byte;
  frameBuf : list byte;
  copying : bool;
  index : Z
}.

(** Power-on contents: statics are zero-initialised. *)
Definition framer0 : framer := {|
  uartBuf := replicate (Z.to_nat MINMEA_MAX_SENTENCE_LENGTH) x00;
  frameBuf := replicate (Z.to_nat MINMEA_MAX_SENTENCE_LENGTH) x00;
  copying := false;
  index := 0
|}.

(** [a[i] = c]; there is no result when [i] lies outside the array. *)
Definition store (a : list byte) (i : Z) (c : byte) : option (list byte) :=
  if (0 <=? i) && (i <? Z.of_nat (length a))
  then Some (<[Z.to_nat i := c]> a)
  else None.

(** [memcpy(dst, src, n)]; no result unless both arrays hold [n] bytes. *)
Definition memcpy (dst src : list byte) (n : nat) : option (list byte) :=
  if (n <=? length src)%nat && (n <=? length dst)%nat
  then Some (take n src ++ drop n dst)
  else None.

(** The C string an array holds: the characters before the first NUL. For
    an array that holds no NUL this is the whole array: what a C function
    reads behind the array is not modelled, so a statement about the C
    string of such an array speaks of the array only. *)
Fixpoint cstring (a : list byte) : list byte :=
  match a with
  | [] => []
  | c :: a' => if Byte.eqb c x00 then [] else c :: cstring a'
  end.

Fixpoint starts_with (needle s : list byte) : bool :=
  match needle, s with
  | [], _ => true
  | _ :: _, [] => false
  | n :: needle', c :: s' => Byte.eqb n c && starts_with needle' s'
  end.

Fixpoint find_from (needle s : list byte) (off : nat) : option nat :=
  if starts_with needle s then Some off
  else match s with
       | [] => None
       | _ :: s' => find_from needle s' (S off)
       end.

(** [strstr(haystack, needle)]: offset of the first occurrence, [None] for
    [NULL]. The answer is that of the C function when the needle occurs in
    the array's C string or the array holds a NUL; on an array with
    neither, the C function reads on behind the array and the [None] given
    here stands for the array alone. *)
Definition strstr (haystack needle : list byte) : option nat :=
  find_from needle (cstring haystack) 0.

Definition GGA : list byte := ["G"; "G"; "A"]%byte.

(** RX interrupt handler. [rx] is [None] when [uart_is_readable] answers
    false, else the byte [uart_getc] delivers. *)
Definition uartRX (rx : option byte) (s : framer) : option framer :=
  match rx with
  | None => Some s
  | Some ch =>
    let copying := if Byte.eqb ch "$" then true else copying s in
    let index := if Byte.eqb ch "$" then 0 else index s in
    if copying && (index <? MINMEA_MAX_SENTENCE_LENGTH) then
      uartBuf ← store (uartBuf s) index ch;
      let index := to_uint8 (index + 1) in
      if Byte.eqb ch x0a && bool_decide (is_Some (strstr uartBuf GGA)) then
        frameBuf ← memcpy (frameBuf s) uartBuf
                          (Z.to_nat MINMEA_MAX_SENTENCE_LENGTH);
        Some {| uartBuf := uartBuf; frameBuf := frameBuf;
                copying := copying; index := index |}
      else
        Some {| uartBuf := uartBuf; frameBuf := frameBuf s;
                copying := copying; index := index |}
    else
      Some {| uartBuf := uartBuf s; frameBuf := frameBuf s;
              copying := copying; index := index |}
  end.

(** The interrupt fires once per received byte. *)
Fixpoint feed (s : framer) (bytes : list byte) : option framer :=
  match bytes with
  | [] => Some s
  | ch :: bytes' => s' ← uartRX (Some ch) s; feed s' bytes'
  end.

(** Both buffers have their declared size and [index] is a [uint8_t]. *)
Definition framer_ok (s : framer) : Prop :=
  length (uartBuf s) = Z.to_nat MINMEA_MAX_SENTENCE_LENGTH /\
  length (frameBuf s) = Z.to_nat MINMEA_MAX_SENTENCE_LENGTH /\
  0 <= index s < 256.

(** [uartRX] on a received byte, once the bounds of its two array
    accesses are discharged: it always returns, and what it returns is
    this state. *)
Definition uartRX_next (ch : byte) (s : framer) : framer :=
  let copying1 := if Byte.eqb ch "$" then true else copying s in
  let index1 := if Byte.eqb ch "$" then 0 else index s in
  if copying1 && (index1 <? MINMEA_MAX_SENTENCE_LENGTH) then
    let buf := <[Z.to_nat index1 := ch]> (uartBuf s) in
    {| uartBuf := buf;
       frameBuf := if Byte.eqb ch x0a && bool_decide (is_Some (strstr buf GGA))
                   then buf else frameBuf s;
       copying := copying1;
       index := index1 + 1 |}
  else
    {| uartBuf := uartBuf s; frameBuf := frameBuf s;
       copying := copying1; index := index1 |}.

Definition ascii_bytes (s : string) : list byte := list_byte_of_string s.

(** ** hat.cpp: the telemetry packet *)

(** [struct packet], declared under [#pragma pack(1)]. *)
Record packet : Type := {
  seq_no : Z;                (* uint32_t *)
  vid : Z;                   (* uint8_t *)
  state : Z;                 (* char *)
  time_ms : Z;               (* uint32_t *)
  time_utc : Z * Z * Z;      (* uint8_t [3] *)
  lat : Z;                   (* int32_t *)
  lng : Z;                   (* int32_t *)
  sat : Z;                   (* uint8_t *)
  pres : Z;                  (* uint32_t *)
  temp : Z;                  (* int16_t *)
  accl : Z * Z * Z;          (* int16_t [3] *)
  gyro : Z * Z * Z           (* int16_t [3] *)
}.

Definition is_uint8 (x : Z) : Prop := 0 <= x < 256.
Definition is_int16 (x : Z) : Prop := -32768 <= x < 32768.
Definition is_uint32 (x : Z) : Prop := 0 <= x < 4294967296.
Definition is_int32 (x : Z) : Prop := -2147483648 <= x < 2147483648.

Definition all3 (P : Z -> Prop) (a : Z * Z * Z) : Prop :=
  let '(a0, a1, a2) := a in P a0 /\ P a1 /\ P a2.

(** Every member holds a value of its declared type. *)
Record packet_typed (p : packet) : Prop := {
  seq_no_typed : is_uint32 (seq_no p);
  vid_typed : is_uint8 (vid p);
  state_typed : is_uint8 (state p);
  time_ms_typed : is_uint32 (time_ms p);
  time_utc_typed : all3 is_uint8 (time_utc p);
  lat_typed : is_int32 (lat p);
  lng_typed : is_int32 (lng p);
  sat_typed : is_uint8 (sat p);
  pres_typed : is_uint32 (pres p);
  temp_typed : is_int16 (temp p);
  accl_typed : all3 is_int16 (accl p);
  gyro_typed : all3 is_int16 (gyro p)
}.

(** The [n] bytes of a scalar in memory, least significant first (the
    RP2040 is little-endian; negative values in two's complement). *)
Fixpoint le_bytes (n : nat) (x : Z) : list Z :=
  match n with
  | O => []
  | S n' => x mod 256 :: le_bytes n' (x / 256)
  end.

Fixpoint le_value (bytes : list Z) : Z :=
  match bytes with
  | [] => 0
  | b :: bytes' => b + 256 * le_value bytes'
  end.

Definition array3 (n : nat) (a : Z * Z * Z) : list Z :=
  let '(a0, a1, a2) := a in le_bytes n a0 ++ le_bytes n a1 ++ le_bytes n a2.

(** The bytes [(const unsigned char * ) &p] points to: the members in
    declaration order, without padding. *)
Definition packet_bytes (p : packet) : list Z :=
  le_bytes 4 (seq_no p) ++ le_bytes 1 (vid p) ++ le_bytes 1 (state p) ++
  le_bytes 4 (time_ms p) ++ array3 1 (time_utc p) ++
  le_bytes 4 (lat p) ++ le_bytes 4 (lng p) ++ le_bytes 1 (sat p) ++
  le_bytes 4 (pres p) ++ le_bytes 2 (temp p) ++
  array3 2 (accl p) ++ array3 2 (gyro p).

(** [sizeof(struct packet)]. *)
Definition sizeof_packet : nat := 4 + 1 + 1 + 4 + 3 + 4 + 4 + 1 + 4 + 2 + 6 + 6.

(** What [hatTask] hands to [LoRa.write]. *)
Definition LoRa_payload (p : packet) : list Z :=
  take sizeof_packet (packet_bytes p).

(** The member of [len] bytes at offset [off] of a byte image. *)
Definition member (image : list Z) (off len : nat) : Z :=
  le_value (take len (drop off image)).

(** A [struct packet] read back from its byte image, member by member at
    the offsets of the packed declaration. *)
Definition packet_of_bytes (image : list Z) : packet := {|
  seq_no := member image 0 4;
  vid := member image 4 1;
  state := member image 5 1;
  time_ms := member image 6 4;
  time_utc := (member image 10 1, member image 11 1, member image 12 1);
  lat := to_int32 (member image 13 4);
  lng := to_int32 (member image 17 4);
  sat := member image 21 1;
  pres := member image 22 4;
  temp := to_int16 (member image 26 2);
  accl := (to_int16 (member image 28 2), to_int16 (member image 30 2),
           to_int16 (member image 32 2));
  gyro := (to_int16 (member image 34 2), to_int16 (member image 36 2),
           to_int16 (member image 38 2))
|}.

(** ** hp203b: the barometer driver *)

(** [hp203b.h]. *)
Definition HP203_ADDR : Z := 118.
Definition HP203_TIMEOUT : Z := 1000.
Definition HP203_RESET : Z := 6.
Definition HP203_READ_PT : Z := 16.
Definition HP203_READ_AT : Z := 17.
Definition HP203_READ_P : Z := 48.
Definition HP203_READ_A : Z := 49.
Definition HP203_READ_T : Z := 50.
Definition HP203_ADC_SET : Z := 64.
Definition HP203_READ_REG : Z := 128.
Definition HP203_WRITE_REG : Z := 192.
Definition HP203_INT_SRC : Z := 13.
Definition HP203_OSR_SHIFT : Z := 2.
Definition HP203_OK : Z := 0.
Definition HP203_ERROR_TIMEOUT : Z := -1.
Definition HP203_ERROR_GENERIC : Z := -2.
Definition HP203_ERROR_BADCHIP : Z := -3.

Inductive HP203_CHN : Type :=
| HP203_PRES_TEMP
| HP203_TEMP_ONLY.

Inductive HP203_OSR : Type :=
| HP203_OSR_4096
| HP203_OSR_2028
| HP203_OSR_1024
| HP203_OSR_512
| HP203_OSR_256
| HP203_OSR_128.

Definition HP203_CHN_value (c : HP203_CHN) : Z :=
  match c with
  | HP203_PRES_TEMP => 0
  | HP203_TEMP_ONLY => 1
  end.

Definition HP203_OSR_value (o : HP203_OSR) : Z :=
  match o with
  | HP203_OSR_4096 => 0
  | HP203_OSR_2028 => 1
  | HP203_OSR_1024 => 2
  | HP203_OSR_512 => 3
  | HP203_OSR_256 => 4
  | HP203_OSR_128 => 5
  end.

Section HP203.
Context {W : Type} {bus : i2c_bus W}.

(** What the chip's reply means is not fixed by the interface: whether the
    probed register looks like a working HP203B, and how the reply bytes of
    a pressure read make up pascals. *)
Variable chip_plausible : list Z -> bool.
Variable pascals : list Z -> Z.
Variable reply_len : Z.

(** Modelled from the spec: the bodies of hp203b.c are missing, only
    hp203b.h is at hand. "Every operation maps bus-layer TimeoutError
    straight through; any other bus anomaly collapses to GenericError": a
    bus call that should transfer [expected] bytes and reports [r]. *)
Definition HP203_bus_status (expected r : Z) : Z :=
  if r =? PICO_ERROR_TIMEOUT then HP203_ERROR_TIMEOUT
  else if r =? expected then HP203_OK
  else HP203_ERROR_GENERIC.

(** Modelled from the spec: [HP203Test] of the missing hp203b.c. It
    "issues a presence/sanity probe" (here: reads the interrupt source
    register); a failing bus call is reported by the failure semantics
    above, and BadChipError "signals a response inconsistent with the
    expected chip identity/behavior". *)
Definition HP203Test : io W Z :=
  let* w := i2c_write_timeout_per_char_us HP203_ADDR
              [Z.lor HP203_READ_REG HP203_INT_SRC] true HP203_TIMEOUT in
  if negb (HP203_bus_status 1 w =? HP203_OK) then ret (HP203_bus_status 1 w)
  else
    let* '(r, buffer) := i2c_read_timeout_per_char_us HP203_ADDR 1 false
                           HP203_TIMEOUT in
    if negb (HP203_bus_status 1 r =? HP203_OK) then ret (HP203_bus_status 1 r)
    else ret (if chip_plausible buffer then HP203_OK else HP203_ERROR_BADCHIP).

(** Modelled from the spec: [HP203GetPres] of the missing hp203b.c,
    "getPressure(session) -> pascals | TimeoutError | GenericError": the
    read-pressure command, then the reply, each bus call reported by the
    failure semantics above. [result] keeps its value on failure. *)
Definition HP203GetPres (result : Z) : io W (Z * Z) :=
  let* w := i2c_write_timeout_per_char_us HP203_ADDR [HP203_READ_P] true
              HP203_TIMEOUT in
  if negb (HP203_bus_status 1 w =? HP203_OK)
  then ret (HP203_bus_status 1 w, result)
  else
    let* '(r, buffer) := i2c_read_timeout_per_char_us HP203_ADDR reply_len
                           false HP203_TIMEOUT in
    if negb (HP203_bus_status reply_len r =? HP203_OK)
    then ret (HP203_bus_status reply_len r, result)
    else ret (HP203_OK, pascals buffer).

End HP203.

(** ** Inputs of the concrete runs *)

Definition sensor0 : qmc_t := {| config := cfg0 |}.

(** A chip whose output registers hold X = 0x1234, Y = 0xABCD, Z = 0xFFFF,
    and whose transfers all complete. *)
Definition chip_field : qmc_chip := {|
  regs := fun a => nth (Z.to_nat a) [52; 18; 205; 171; 255; 255] 0;
  pointer := 0;
  line := []
|}.

(** A chip whose control register 1 holds [0x22]: both reserved bits. *)
Definition chip_reserved : qmc_chip := {|
  regs := fun a => if a =? 9 then 34 else 0;
  pointer := 0;
  line := []
|}.

Definition cfg_run : qmc_cfg := {|
  mode := 1; ODR := 2; OSR := 3; scale := 1;
  pointerRoll := 1; enableInterrupt := 0; control := (0, 0)
|}.

Definition literal_packet : packet := {|
  seq_no := 7; vid := 3; state := 82 (* 'R' *); time_ms := 0;
  time_utc := (0, 0, 0); lat := -33123; lng := 151456; sat := 6;
  pres := 101325; temp := 2150; accl := (1, 2, 3); gyro := (4, 5, 6)
|}.

(** Byte streams for the framer: two GGA sentences of different length,
    and a complete sentence without the marker. *)
Definition gga_sentence : list byte :=
  ascii_bytes "$GPGGA,1*29" ++ [x0d; x0a].
Definition gga_longer : list byte :=
  ascii_bytes "$GPGGA,123456*29" ++ [x0d; x0a].
Definition other_sentence : list byte := ascii_bytes "$X" ++ [x0a].

(** ** Definitions for the further properties *)

(** The fields of control register 1 keep clear of the bits [QMCGetCfg]
    rejects with [buffer[0] & 0x22]. *)
Definition clear_of_reserved (so sr ss : Z) : bool :=
  (Z.land (field_mask 2 so) 34 =? 0) && (Z.land (field_mask 2 sr) 34 =? 0) &&
  (Z.land (field_mask 1 ss) 34 =? 0).

Definition control1_clear_of_reserved {h : qmc5883l_h} : bool :=
  clear_of_reserved QMC_ODR_SHIFT QMC_OSR_SHIFT QMC_SCALE_SHIFT.

(** The byte [QMCSetCfg] packs passes the reserved-bit test of
    [QMCGetCfg]. *)
Definition packs_valid (so sr ss m o r s : Z) : bool :=
  let b := to_uint8 (Z.lor (Z.lor (Z.lor (Z.shiftl m 0) (Z.shiftl o so))
                                  (Z.shiftl r sr))
                           (Z.shiftl s ss)) in
  Z.land b 34 =? 0.

Definition reserved_sweep : bool :=
  forallb (fun so => forallb (fun sr => forallb (fun ss =>
    implb (fields_apart 0 so sr ss && clear_of_reserved so sr ss)
      (forallb (fun m => forallb (fun o => forallb (fun r => forallb (fun s =>
         packs_valid so sr ss m o r s)
       (Zrange 2)) (Zrange 4)) (Zrange 4)) (Zrange 2)))
  (Zrange 8)) (Zrange 8)) (Zrange 8).

(** The fields [QMCGetCfg] decodes from the byte [b0] of control
    register 1, over the cached configuration [cfg]. *)
Definition decoded {h : qmc5883l_h} (b0 : Z) (cfg : qmc_cfg) : qmc_cfg := {|
  ODR := Z.land (Z.shiftr b0 QMC_ODR_SHIFT) 3;
  OSR := Z.land (Z.shiftr b0 QMC_OSR_SHIFT) 3;
  mode := Z.land b0 1;
  scale := Z.land (Z.shiftr b0 QMC_SCALE_SHIFT) 1;
  pointerRoll := pointerRoll cfg;
  enableInterrupt := enableInterrupt cfg;
  control := control cfg
|}.

(** [hatInit], the vehicle id: the exclusive or of the 8 bytes that
    [flash_get_unique_id] wrote to [buf], stored in the [uint64_t vid]. *)
Definition hatInit_vid (buf : list Z) : Z :=
  (Z.lxor (Z.lxor (Z.lxor (Z.lxor (Z.lxor (Z.lxor (Z.lxor
     (byte_at buf 0) (byte_at buf 1)) (byte_at buf 2)) (byte_at buf 3))
     (byte_at buf 4)) (byte_at buf 5)) (byte_at buf 6)) (byte_at buf 7))
  mod 2 ^ 64.

(** [p.vid = vid] of [hatTask]: the conversion to the [uint8_t] member. *)
Definition hatTask_vid (vid : Z) : Z := to_uint8 vid.

(** A chip that holds the temperature [-1234] in its temperature
    registers and X = 300, Y = -2, Z = 0 in its output registers. *)
Definition chip_values : qmc_chip := {|
  regs := fun a => nth (Z.to_nat a) [44; 1; 254; 255; 0; 0; 5; 46; 251] 0;
  pointer := 0;
  line := []
|}.

(** The 8 bytes of a flash id. *)
Definition flash_id : list Z := [230; 97; 16; 67; 139; 42; 0; 255].

Definition status0 : qmc_status :=
  {| dataReady := false; dataOverflow := false; dataSkip := false |}.

(** The inner bytes of a GGA sentence and of another sentence, and bytes
    received before a start delimiter. *)
Definition body_gga : list byte := ascii_bytes "GPGGA,1*29" ++ [x0d].
Definition body_other : list byte := ascii_bytes "GPRMC,1*1F" ++ [x0d].
Definition line_noise : list byte := ascii_bytes "9,W*6A" ++ [x0d; x0a].

(** A sentence longer than the capture buffer: 101 bytes, the marker at
    bytes 3 to 5. *)
Definition overlong_sentence : list byte :=
  ascii_bytes "$GPGGA," ++ replicate 94 "7"%byte ++ [x0a].

(** * Properties *)

(** ** Integer conversions *)

Lemma to_int8_small (x : Z) : -128 <= x < 128 -> to_int8 x = x.
Proof.
  intros Hx. unfold to_int8.
  rewrite Z.mod_small by lia. lia.
Qed.

Lemma to_uint8_idem (x : Z) : to_uint8 (to_uint8 x) = to_uint8 x.
Proof. unfold to_uint8. apply Z.mod_mod. lia. Qed.

Lemma to_int16_small (x : Z) : -32768 <= x < 32768 -> to_int16 x = x.
Proof.
  intros Hx. unfold to_int16.
  rewrite Z.mod_small by lia. lia.
Qed.

Lemma bus_result_int8 (len r : Z) :
  len < 128 -> bus_result len r -> -128 <= r < 128.
Proof.
  unfold bus_result, PICO_ERROR_TIMEOUT, PICO_ERROR_GENERIC.
  intros Hlen [-> | [-> | Hr]]; lia.
Qed.

(** The ternary that picks the worse of two results is [Z.min]. *)
Lemma worst_is_min (a b : Z) : (if a <? b then a else b) = Z.min a b.
Proof. destruct (Z.ltb_spec a b); lia. Qed.

(** ** The magnetometer driver on an arbitrary bus *)

Section DriverFacts.
Context {W : Type} {bus : i2c_bus W} {h : qmc5883l_h}.

(** Running a driver function splits along its bus calls. *)
Lemma bind_run {A B} (m : io W A) (k : A -> io W B) (w w1 : W) (a : A) :
  m w = (a, w1) -> bind m k w = k a w1.
Proof. intros Hm. unfold bind. rewrite Hm. reflexivity. Qed.

(** C3: [QMCSetCfg] stores the configuration in the session exactly when
    both control-register writes report 2 bytes, and then returns 0; in
    every other case the session is left as it was and the value returned
    is the smaller of the two write results. *)
Theorem QMCSetCfg_cache_atomic
  (sensor : qmc_t) (cfg : qmc_cfg) (w w1 w2 : W) (r0 r1 : Z) :
  QMCWriteByte sensor QMC_CONTROL1 (fst (control (pack_control cfg))) w
    = (r0, w1) ->
  QMCWriteByte sensor QMC_CONTROL2 (snd (control (pack_control cfg))) w1
    = (r1, w2) ->
  -128 <= r0 < 128 -> -128 <= r1 < 128 ->
  exists (code : Z) (sensor' : qmc_t),
    QMCSetCfg sensor cfg w = ((code, sensor'), w2) /\
    (r0 = 2 /\ r1 = 2 ->
       sensor' = {| config := pack_control cfg |} /\ code = 0) /\
    (~ (r0 = 2 /\ r1 = 2) -> sensor' = sensor /\ code = Z.min r0 r1).
Proof.
  intros H0 H1 Hr0 Hr1.
  unfold QMCSetCfg.
  rewrite (bind_run _ _ _ _ _ H0), (bind_run _ _ _ _ _ H1).
  rewrite !to_int8_small by assumption.
  destruct (Z.eqb_spec r0 2) as [E0 | N0], (Z.eqb_spec r1 2) as [E1 | N1];
    cbn [andb]; unfold ret; rewrite ?worst_is_min;
    eexists _, _; (split; [reflexivity |]); split; intros; try lia; auto.
Qed.

(** Whatever the bus does, [QMCGetMag] has two return values only. *)
Lemma QMCGetMag_codes (sensor : qmc_t) (data : Z * Z * Z) (w : W) :
  fst (fst (QMCGetMag sensor data w)) = to_int8 QMC_ERROR_TIMEOUT \/
  fst (fst (QMCGetMag sensor data w)) = to_int8 QMC_ERROR_GENERIC.
Proof.
  unfold QMCGetMag, bind.
  destruct (QMCReadBytes sensor QMC_XOUT_LSB 6 w) as [[r buffer] w'].
  cbn. destruct (to_int8 r =? QMC_ERROR_TIMEOUT); auto.
Qed.

(** C1, at a burst read that reports all 6 bytes: [QMCGetMag] stores the
    three little-endian pairs, and the value it returns is
    [QMC_ERROR_GENERIC], the same value it returns for a bus anomaly; the
    success value is never returned. *)
Theorem QMCGetMag_full_read_returns_generic
  (sensor : qmc_t) (data : Z * Z * Z) (w w' : W) (buffer : list Z) :
  QMCReadBytes sensor QMC_XOUT_LSB 6 w = ((6, buffer), w') ->
  QMC_ERROR_TIMEOUT <> 6 ->
  QMCGetMag sensor data w =
    ((to_int8 QMC_ERROR_GENERIC,
      (le16 (byte_at buffer 0) (byte_at buffer 1),
       le16 (byte_at buffer 2) (byte_at buffer 3),
       le16 (byte_at buffer 4) (byte_at buffer 5))), w').
Proof.
  intros Hread Hcode.
  unfold QMCGetMag. rewrite (bind_run _ _ _ _ _ Hread).
  change (to_int8 6) with 6.
  destruct (Z.eqb_spec 6 QMC_ERROR_TIMEOUT) as [E | _]; [congruence |].
  reflexivity.
Qed.

(** The mask [0x22] selects bits 1 and 5. *)
Lemma reserved_bits (b : Z) :
  Z.land b 34 <> 0 <-> Z.testbit b 1 = true \/ Z.testbit b 5 = true.
Proof.
  split.
  - intros Hland.
    destruct (Z.testbit b 1) eqn:B1; [auto |].
    destruct (Z.testbit b 5) eqn:B5; [auto |].
    exfalso. apply Hland. apply Z.bits_inj'. intros n Hn.
    rewrite Z.land_spec, Z.bits_0.
    assert (Hcases : n = 0 \/ n = 1 \/ n = 2 \/ n = 3 \/ n = 4 \/ n = 5
                     \/ 5 < n) by lia.
    destruct Hcases as [-> | [-> | [-> | [-> | [-> | [-> | Hbig]]]]]];
      rewrite ?B1, ?B5, ?andb_false_r; try reflexivity.
    rewrite (Z.bits_above_log2 34 n) by (cbn; lia).
    apply andb_false_r.
  - intros Hbit Hland.
    assert (H1 : Z.testbit (Z.land b 34) 1 = false)
      by (rewrite Hland; reflexivity).
    assert (H5 : Z.testbit (Z.land b 34) 5 = false)
      by (rewrite Hland; reflexivity).
    rewrite Z.land_spec in H1, H5.
    change (Z.testbit 34 1) with true in H1.
    change (Z.testbit 34 5) with true in H5.
    rewrite andb_true_r in H1, H5.
    destruct Hbit; congruence.
Qed.

(** C7: [QMCGetCfg] returns [QMC_ERROR_INVALID] exactly when both
    single-byte control-register reads report 1 byte and bit 1 or bit 5 (the
    reserved bits, mask [0x22]) of the byte read from control register 1 is
    set, whatever the other bits are. The header's [QMC_ERROR_INVALID] is
    taken to differ from [QMC_OK] and from every value a bus call reports
    (the timeout and generic error codes and the byte counts). *)
Theorem QMCGetCfg_invalid_iff
  (sensor : qmc_t) (w w1 w2 : W) (r0 r1 : Z) (buffer0 buffer1 : list Z) :
  QMCReadBytes sensor QMC_CONTROL1 1 w = ((r0, buffer0), w1) ->
  QMCReadBytes sensor QMC_CONTROL2 1 w1 = ((r1, buffer1), w2) ->
  bus_result 1 r0 -> bus_result 1 r1 ->
  to_int8 QMC_ERROR_INVALID <> to_int8 QMC_OK ->
  ~ bus_result 1 (to_int8 QMC_ERROR_INVALID) ->
  fst (fst (QMCGetCfg sensor w)) = to_int8 QMC_ERROR_INVALID <->
  r0 = 1 /\ r1 = 1 /\
  (Z.testbit (byte_at buffer0 0) 1 = true \/
   Z.testbit (byte_at buffer0 0) 5 = true).
Proof.
  intros H0 H1 Hr0 Hr1 Hok Hbus.
  unfold QMCGetCfg.
  rewrite (bind_run _ _ _ _ _ H0), (bind_run _ _ _ _ _ H1).
  rewrite (to_int8_small r0), (to_int8_small r1)
    by (eapply bus_result_int8; [| eassumption]; lia).
  rewrite <- reserved_bits.
  destruct (Z.eqb_spec r0 1) as [E0 | N0], (Z.eqb_spec r1 1) as [E1 | N1];
    cbn [andb ret fst].
  - destruct (Z.eqb_spec (Z.land (byte_at buffer0 0) 34) 0) as [Z0 | NZ];
      cbn [negb].
    + split; [intros E; exfalso; apply Hok; symmetry; exact E | tauto].
    + split; [tauto | reflexivity].
  - split; [intros E | tauto]. exfalso. apply Hbus.
    rewrite <- E, worst_is_min. unfold bus_result in *. lia.
  - split; [intros E | tauto]. exfalso. apply Hbus.
    rewrite <- E, worst_is_min. unfold bus_result in *. lia.
  - split; [intros E | tauto]. exfalso. apply Hbus.
    rewrite <- E, worst_is_min. unfold bus_result in *. lia.
Qed.

End DriverFacts.

(** ** The control byte: packing and decoding *)

Lemma Zrange_In (n : nat) (x : Z) : 0 <= x < Z.of_nat n -> In x (Zrange n).
Proof.
  intros Hx. unfold Zrange. apply in_map_iff.
  exists (Z.to_nat x). split; [lia | apply in_seq; lia].
Qed.

Lemma layout_sweep_true : layout_sweep = true.
Proof. vm_compute. reflexivity. Qed.

Lemma field_mask_bound (width shift : Z) :
  0 < width -> 0 <= shift -> field_mask width shift <= 255 -> shift < 8.
Proof.
  intros Hw Hs Hm. unfold field_mask in Hm.
  rewrite Z.shiftl_mul_pow2, Z.ones_equiv in Hm by lia.
  destruct (Z.lt_ge_cases shift 8) as [| Hbig]; [assumption | exfalso].
  assert (H8 : 2 ^ 8 <= 2 ^ shift) by (apply Z.pow_le_mono_r; lia).
  assert (H1 : 2 ^ 1 <= 2 ^ width) by (apply Z.pow_le_mono_r; lia).
  change (2 ^ 8) with 256 in H8. change (2 ^ 1) with 2 in H1.
  nia.
Qed.

Lemma control0_decodes (so sr ss m o r s : Z) :
  fields_apart 0 so sr ss = true ->
  0 <= m < 2 -> 0 <= o < 4 -> 0 <= r < 4 -> 0 <= s < 2 ->
  decodes so sr ss m o r s = true.
Proof.
  intros Hlay Hm Ho Hr Hs.
  assert (Hb : 0 <= so < 8 /\ 0 <= sr < 8 /\ 0 <= ss < 8).
  { unfold fields_apart in Hlay.
    repeat (apply andb_prop in Hlay; destruct Hlay as [Hlay ?]).
    repeat match goal with
           | H : (_ <=? _) = true |- _ => apply Z.leb_le in H
           end.
    repeat split; try assumption;
      eapply field_mask_bound; try eassumption; lia. }
  destruct Hb as (Hso & Hsr & Hss).
  pose proof layout_sweep_true as Hsweep. unfold layout_sweep in Hsweep.
  rewrite forallb_forall in Hsweep.
  specialize (Hsweep so (Zrange_In 8 so Hso)).
  rewrite forallb_forall in Hsweep.
  specialize (Hsweep sr (Zrange_In 8 sr Hsr)).
  rewrite forallb_forall in Hsweep.
  specialize (Hsweep ss (Zrange_In 8 ss Hss)).
  rewrite Hlay in Hsweep. cbn [implb] in Hsweep.
  rewrite forallb_forall in Hsweep.
  specialize (Hsweep m (Zrange_In 2 m Hm)).
  rewrite forallb_forall in Hsweep.
  specialize (Hsweep o (Zrange_In 4 o Ho)).
  rewrite forallb_forall in Hsweep.
  specialize (Hsweep r (Zrange_In 4 r Hr)).
  rewrite forallb_forall in Hsweep.
  exact (Hsweep s (Zrange_In 2 s Hs)).
Qed.

(** ** The driver against the chip on the bus *)

Section OnChip.
Context {h : qmc5883l_h}.
#[local] Existing Instance chip_bus.

Lemma chip_write_done
  (sensor : qmc_t) (reg value : Z) (c : qmc_chip) (l : list transfer) :
  line c = Done :: l ->
  QMCWriteByte sensor reg value c =
    (2, {| regs := set_reg (regs c) (to_uint8 reg) (to_uint8 value);
           pointer := to_uint8 reg; line := l |}).
Proof.
  intros Hl. unfold QMCWriteByte. cbn [i2c_write_timeout_per_char_us chip_bus].
  unfold chip_write, next_transfer. rewrite Hl, Z.eqb_refl. reflexivity.
Qed.

(** [QMCReadBytes] on the chip: the selector write moves the register
    pointer only if it is [Done]; the read reports by its own fate. *)
Lemma chip_QMCReadBytes
  (sensor : qmc_t) (reg len : Z) (c : qmc_chip)
  (sel rd : transfer) (l : list transfer) :
  line c = sel :: rd :: l ->
  QMCReadBytes sensor reg len c =
    let p := match sel with Done => to_uint8 reg | _ => pointer c end in
    ((reported len rd,
      match rd with
      | Done => (fun k => regs c (p + Z.of_nat k)) <$> seq 0 (Z.to_nat len)
      | _ => []
      end),
     {| regs := regs c; pointer := p; line := l |}).
Proof.
  intros Hl. unfold QMCReadBytes, bind.
  cbn [i2c_write_timeout_per_char_us i2c_read_timeout_per_char_us chip_bus].
  unfold chip_write, chip_read, next_transfer, with_line.
  rewrite Hl. destruct sel; rewrite ?Z.eqb_refl; cbn [line];
    destruct rd; rewrite ?Z.eqb_refl; reflexivity.
Qed.

Lemma chip_QMCGetStatus_stale
  (sensor : qmc_t) (c : qmc_chip) (status : qmc_status)
  (sel : transfer) (l : list transfer) :
  sel <> Done ->
  fst (QMCGetStatus sensor status (with_line c (sel :: Done :: l))) =
    (0, flags_of (regs c (pointer c))).
Proof.
  intros Hsel. unfold QMCGetStatus.
  rewrite (bind_run _ _ _ _ _
             (chip_QMCReadBytes sensor QMC_STATUS 1
                (with_line c (sel :: Done :: l)) sel Done l eq_refl)).
  destruct sel; [congruence | |];
    change (to_int8 1 =? 1) with true; cbv iota;
    change (Z.to_nat 1) with 1%nat;
    cbn [seq fmap list_fmap byte_at nth ret fst Z.of_nat];
    rewrite Z.add_0_r; reflexivity.
Qed.

(** C10: in [QMCReadBytes] the result of the register-selector write is
    dropped. On the chip, whatever happens to the selector write ([sel],
    [sel']), the value reported to the caller is that of the data read
    alone; and when the selector write times out or is not acknowledged
    while the read succeeds, [QMCGetStatus] returns 0 (success), with
    flags decoded from the register the stale pointer designates. *)
Theorem QMCReadBytes_selector_result_dropped
  (sensor : qmc_t) (reg len : Z) (c : qmc_chip) (status : qmc_status)
  (sel sel' rd : transfer) (l : list transfer) :
  fst (fst (QMCReadBytes sensor reg len (with_line c (sel :: rd :: l))))
    = reported len rd /\
  fst (fst (QMCReadBytes sensor reg len (with_line c (sel :: rd :: l))))
    = fst (fst (QMCReadBytes sensor reg len (with_line c (sel' :: rd :: l))))
  /\
  fst (QMCGetStatus sensor status (with_line c (TimedOut :: Done :: l))) =
    (0, flags_of (regs c (pointer c))) /\
  fst (QMCGetStatus sensor status (with_line c (NotAcked :: Done :: l))) =
    (0, flags_of (regs c (pointer c))).
Proof.
  split; [| split; [| split]].
  - rewrite (chip_QMCReadBytes sensor reg len _ sel rd l) by reflexivity.
    reflexivity.
  - rewrite (chip_QMCReadBytes sensor reg len _ sel rd l) by reflexivity.
    rewrite (chip_QMCReadBytes sensor reg len _ sel' rd l) by reflexivity.
    reflexivity.
  - apply chip_QMCGetStatus_stale. discriminate.
  - apply chip_QMCGetStatus_stale. discriminate.
Qed.

(** C2: after a [QMCSetCfg] whose two control-register writes are
    transferred in full, a [QMCGetCfg] on the same chip, its transfers
    completing, decodes [mode], [ODR], [OSR] and [scale] equal to the
    values that were set, each field on its own -- into whatever session
    it is run on ([reader]), the one [QMCSetCfg] has just filled or one
    that caches other values: the fields come from the byte read back,
    not from the cache. The header's shifts are taken to place the fields
    in the byte without overlap ([control1_fields_apart]) and its two
    control registers to be different registers; the field values are
    those of the fields' widths ([fields_fit]). *)
Theorem QMCSetCfg_QMCGetCfg_roundtrip
  (sensor reader : qmc_t) (cfg : qmc_cfg) (c : qmc_chip)
  (l : list transfer) :
  control1_fields_apart = true ->
  to_uint8 QMC_CONTROL1 <> to_uint8 QMC_CONTROL2 ->
  fields_fit cfg ->
  line c = Done :: Done :: Done :: Done :: Done :: Done :: l ->
  exists (sensor1 : qmc_t) (c1 : qmc_chip)
         (code2 : Z) (sensor2 : qmc_t) (c2 : qmc_chip),
    QMCSetCfg sensor cfg c = ((0, sensor1), c1) /\
    sensor1 = {| config := pack_control cfg |} /\
    QMCGetCfg reader c1 = ((code2, sensor2), c2) /\
    mode (config sensor2) = mode cfg /\
    ODR (config sensor2) = ODR cfg /\
    OSR (config sensor2) = OSR cfg /\
    scale (config sensor2) = scale cfg.
Proof.
  intros Hlay Hregs (Hm & Ho & Hr & Hs) Hl.
  unfold control1_fields_apart in Hlay.
  assert (Hsm : QMC_MODE_SHIFT = 0).
  { unfold fields_apart in Hlay.
    repeat (apply andb_prop in Hlay; destruct Hlay as [Hlay ?]).
    apply Z.eqb_eq. assumption. }
  rewrite Hsm in Hlay.
  pose proof (control0_decodes _ _ _ _ _ _ _ Hlay Hm Ho Hr Hs) as Hdec.
  unfold decodes in Hdec.
  repeat (apply andb_prop in Hdec; destruct Hdec as [Hdec ?]).
  repeat match goal with
         | H : (_ =? _) = true |- _ => apply Z.eqb_eq in H
         end.
  destruct c as [rg pt ln]. cbn [line] in Hl. subst ln.
  assert (Hset : exists c1,
    QMCSetCfg sensor cfg
      {| regs := rg; pointer := pt;
         line := Done :: Done :: Done :: Done :: Done :: Done :: l |} =
      ((0, {| config := pack_control cfg |}), c1) /\
    regs c1 (to_uint8 QMC_CONTROL1) =
      to_uint8 (fst (control (pack_control cfg))) /\
    line c1 = Done :: Done :: Done :: Done :: l).
  { unfold QMCSetCfg.
    erewrite bind_run by (apply chip_write_done; reflexivity).
    erewrite bind_run by (apply chip_write_done; reflexivity).
    change (to_int8 2 =? 2) with true. cbn [andb ret].
    eexists. split; [reflexivity |]. split; [| reflexivity].
    cbn [regs]. unfold set_reg.
    destruct (Z.eqb_spec (to_uint8 QMC_CONTROL1) (to_uint8 QMC_CONTROL2));
      [contradiction |].
    rewrite Z.eqb_refl. reflexivity. }
  destruct Hset as (c1 & Hset & Hreg & Hline).
  exists {| config := pack_control cfg |}, c1. eexists _, _, _.
  split; [exact Hset |]. split; [reflexivity |]. split.
  { unfold QMCGetCfg.
    erewrite bind_run by (apply chip_QMCReadBytes; exact Hline).
    cbv beta iota zeta.
    erewrite bind_run by (apply chip_QMCReadBytes; reflexivity).
    cbv beta iota zeta. cbn [reported].
    change (to_int8 1 =? 1) with true. cbn [andb]. reflexivity. }
  (* the byte read is the byte written; it decodes to the fields set *)
  change (Z.to_nat 1) with 1%nat.
  cbn [config mode ODR OSR scale seq fmap list_fmap byte_at nth Z.of_nat
       regs].
  rewrite Z.add_0_r, Hreg. cbn [pack_control control fst].
  rewrite !to_uint8_idem, Hsm. tauto.
Qed.

End OnChip.

(** ** The drivers against the bus stub that always times out *)

Section OnStub.
Context {h : qmc5883l_h}.
#[local] Existing Instance stub_timeout.

(** C9: on the bus stub whose every write and read reports a timeout,
    [QMCTest] and [HP203Test] return the timeout code, and so do
    [QMCGetMag] and [HP203GetPres], which do not return the generic error
    code. The magnetometer header's timeout code is taken to be the bus
    layer's and to differ from its generic code; [HP203Test] and
    [HP203GetPres] are the functions modelled above. *)
Theorem timeout_stub_reports_timeout
  (sensor : qmc_t) (data : Z * Z * Z)
  (chip_plausible : list Z -> bool) (pascals : list Z -> Z)
  (reply_len result : Z) :
  QMC_ERROR_TIMEOUT = PICO_ERROR_TIMEOUT ->
  to_int8 QMC_ERROR_GENERIC <> to_int8 QMC_ERROR_TIMEOUT ->
  fst (fst (QMCTest sensor tt)) = QMC_ERROR_TIMEOUT /\
  fst (fst (QMCGetMag sensor data tt)) = QMC_ERROR_TIMEOUT /\
  fst (fst (QMCGetMag sensor data tt)) <> to_int8 QMC_ERROR_GENERIC /\
  fst (HP203Test chip_plausible tt) = HP203_ERROR_TIMEOUT /\
  fst (fst (HP203GetPres pascals reply_len result tt)) = HP203_ERROR_TIMEOUT /\
  fst (fst (HP203GetPres pascals reply_len result tt)) <> HP203_ERROR_GENERIC.
Proof.
  intros Htimeout Hgeneric.
  assert (Hmag : fst (fst (QMCGetMag sensor data tt)) = QMC_ERROR_TIMEOUT).
  { unfold QMCGetMag, QMCReadBytes, bind. cbn [i2c_write_timeout_per_char_us
      i2c_read_timeout_per_char_us stub_timeout ret fst].
    rewrite Htimeout. reflexivity. }
  split; [| split; [exact Hmag | split]].
  - unfold QMCTest, QMCGetCfg, QMCReadBytes, bind.
    cbn [i2c_write_timeout_per_char_us i2c_read_timeout_per_char_us
         stub_timeout ret fst].
    rewrite Htimeout. reflexivity.
  - rewrite Hmag. intros E. apply Hgeneric. rewrite <- E, Htimeout.
    reflexivity.
  - repeat split; try reflexivity; discriminate.
Qed.

End OnStub.

(** ** The line framer *)

Lemma store_in_range (a : list byte) (i : Z) (c : byte) :
  0 <= i < Z.of_nat (length a) ->
  store a i c = Some (<[Z.to_nat i := c]> a).
Proof.
  intros Hi. unfold store.
  destruct (Z.leb_spec 0 i); [| lia].
  destruct (Z.ltb_spec i (Z.of_nat (length a))); [| lia].
  reflexivity.
Qed.

Lemma memcpy_whole (dst src : list byte) (n : nat) :
  length src = n -> length dst = n -> memcpy dst src n = Some src.
Proof.
  intros Hs Hd. unfold memcpy.
  rewrite Hs, Hd, Nat.leb_refl. cbn [andb].
  rewrite take_ge, drop_ge, app_nil_r by lia. reflexivity.
Qed.

Lemma uartRX_total (ch : byte) (s : framer) :
  framer_ok s -> uartRX (Some ch) s = Some (uartRX_next ch s).
Proof.
  intros (Hu & Hf & Hi).
  unfold uartRX, uartRX_next.
  set (copying1 := if Byte.eqb ch "$" then true else copying s).
  set (index1 := if Byte.eqb ch "$" then 0 else index s).
  assert (Hi1 : 0 <= index1 < 256)
    by (subst index1; destruct (Byte.eqb ch "$"); lia).
  destruct copying1; cbn [andb]; [| reflexivity].
  destruct (Z.ltb_spec index1 MINMEA_MAX_SENTENCE_LENGTH) as [Hlt | Hge];
    [| reflexivity].
  unfold MINMEA_MAX_SENTENCE_LENGTH in *.
  rewrite store_in_range by lia. cbn [mbind option_bind].
  assert (Hidx : to_uint8 (index1 + 1) = index1 + 1)
    by (unfold to_uint8; apply Z.mod_small; lia).
  rewrite Hidx.
  destruct (Byte.eqb ch x0a && _); [| reflexivity].
  rewrite memcpy_whole by (rewrite ?length_insert; assumption).
  reflexivity.
Qed.

Lemma uartRX_next_ok (ch : byte) (s : framer) :
  framer_ok s -> framer_ok (uartRX_next ch s).
Proof.
  intros (Hu & Hf & Hi). unfold uartRX_next, framer_ok.
  set (copying1 := if Byte.eqb ch "$" then true else copying s).
  set (index1 := if Byte.eqb ch "$" then 0 else index s).
  assert (Hi1 : 0 <= index1 < 256)
    by (subst index1; destruct (Byte.eqb ch "$"); lia).
  destruct copying1; cbn [andb]; [| cbn; auto].
  destruct (Z.ltb_spec index1 MINMEA_MAX_SENTENCE_LENGTH) as [Hlt | Hge];
    [| cbn; auto].
  unfold MINMEA_MAX_SENTENCE_LENGTH in *.
  cbn [uartBuf frameBuf index].
  destruct (Byte.eqb ch x0a && _); rewrite ?length_insert;
    repeat split; try assumption; lia.
Qed.

(** Every array access of the framer is in bounds: on every byte sequence
    [feed] returns, and the buffers keep their size. *)
Lemma feed_in_bounds (bytes : list byte) (s : framer) :
  framer_ok s -> exists s', feed s bytes = Some s' /\ framer_ok s'.
Proof.
  revert s. induction bytes as [| ch bytes IH]; intros s Hok.
  - exists s. split; [reflexivity | assumption].
  - cbn [feed]. rewrite uartRX_total by assumption. cbn [mbind option_bind].
    apply IH, uartRX_next_ok, Hok.
Qed.

Lemma feed_app (a b : list byte) (s : framer) :
  feed s (a ++ b) = s' ← feed s a; feed s' b.
Proof.
  revert s. induction a as [| ch a IH]; intros s; [reflexivity |].
  cbn [feed app]. destruct (uartRX (Some ch) s) as [s1 |]; [| reflexivity].
  cbn [mbind option_bind]. apply IH.
Qed.

Lemma byte_eqb_neq (a b : byte) : a <> b -> Byte.eqb a b = false.
Proof.
  intros Hne. destruct (Byte.eqb a b) eqn:E; [| reflexivity].
  apply Byte.byte_dec_bl in E. contradiction.
Qed.

(** A byte that is neither the start delimiter nor the terminator never
    touches the published frame; it advances [index] while there is room. *)
Lemma uartRX_next_inner (ch : byte) (s : framer) :
  ch <> "$"%byte -> ch <> x0a ->
  frameBuf (uartRX_next ch s) = frameBuf s /\
  copying (uartRX_next ch s) = copying s /\
  index (uartRX_next ch s) =
    if copying s && (index s <? MINMEA_MAX_SENTENCE_LENGTH)
    then index s + 1 else index s.
Proof.
  intros Hstart Hend. unfold uartRX_next.
  rewrite (byte_eqb_neq _ _ Hstart), (byte_eqb_neq _ _ Hend).
  destruct (copying s && (index s <? MINMEA_MAX_SENTENCE_LENGTH));
    cbn; auto.
Qed.

Lemma feed_inner (body : list byte) (s : framer) :
  framer_ok s -> copying s = true ->
  0 <= index s <= MINMEA_MAX_SENTENCE_LENGTH ->
  Forall (fun c => c <> "$"%byte /\ c <> x0a) body ->
  exists s', feed s body = Some s' /\ framer_ok s' /\
    frameBuf s' = frameBuf s /\ copying s' = true /\
    index s' = Z.min (index s + Z.of_nat (length body))
                     MINMEA_MAX_SENTENCE_LENGTH.
Proof.
  revert s. induction body as [| ch body IH]; intros s Hok Hcopy Hidx Hbody.
  - exists s. repeat split; try assumption; try apply Hok.
    cbn [length]. lia.
  - apply Forall_cons in Hbody. destruct Hbody as [[Hstart Hend] Hbody].
    cbn [feed]. rewrite uartRX_total by assumption. cbn [mbind option_bind].
    destruct (uartRX_next_inner ch s Hstart Hend) as (Hf & Hc & Hi).
    rewrite Hcopy in Hi, Hc. cbn [andb] in Hi.
    destruct (IH (uartRX_next ch s)) as (s' & Hfeed & Hok' & Hf' & Hc' & Hi');
      try assumption.
    + apply uartRX_next_ok, Hok.
    + rewrite Hi.
      destruct (Z.ltb_spec (index s) MINMEA_MAX_SENTENCE_LENGTH); lia.
    + exists s'. repeat split; try assumption; try apply Hok'.
      * congruence.
      * rewrite Hi', Hi. cbn [length].
        destruct (Z.ltb_spec (index s) MINMEA_MAX_SENTENCE_LENGTH); lia.
Qed.

(** X19: on every byte sequence every write of [uartRX] into its buffers
    is in bounds ([feed] returns and the buffers keep their 80 bytes); and
    while a sentence that exceeds the capacity comes in -- the start
    delimiter, at least 79 bytes that are neither delimiter nor terminator,
    then the terminator -- the published frame stays as it was, after every
    one of its bytes. (What becomes of the captured bytes afterwards is
    [uartRX_overlong_bytes_published].) *)
Theorem uartRX_in_bounds_and_overlong_dropped
  (s : framer) (bytes body : list byte) (k : nat) :
  framer_ok s ->
  Forall (fun c => c <> "$"%byte /\ c <> x0a) body ->
  MINMEA_MAX_SENTENCE_LENGTH - 1 <= Z.of_nat (length body) ->
  (exists s', feed s bytes = Some s' /\ framer_ok s') /\
  (exists s', feed s (take k ("$"%byte :: body ++ [x0a])) = Some s' /\
              framer_ok s' /\ frameBuf s' = frameBuf s).
Proof.
  intros Hok Hbody Hlen. split; [apply feed_in_bounds, Hok |].
  destruct k as [| k].
  { exists s. repeat split; try apply Hok. }
  cbn [take feed]. rewrite uartRX_total by assumption.
  cbn [mbind option_bind].
  set (s1 := uartRX_next "$" s).
  assert (Hok1 : framer_ok s1) by apply uartRX_next_ok, Hok.
  assert (Hs1 : frameBuf s1 = frameBuf s /\ copying s1 = true /\ index s1 = 1).
  { subst s1. unfold uartRX_next. cbn. auto. }
  destruct Hs1 as (Hf1 & Hc1 & Hi1).
  unfold MINMEA_MAX_SENTENCE_LENGTH in Hlen.
  destruct (Nat.le_gt_cases k (length body)) as [Hk | Hk].
  - (* a proper part of the sentence: the terminator is still to come *)
    rewrite take_app_le by assumption.
    destruct (feed_inner (take k body) s1) as (s' & Hfeed & Hok' & Hf' & _);
      try assumption.
    + rewrite Hi1. unfold MINMEA_MAX_SENTENCE_LENGTH. lia.
    + apply Forall_take, Hbody.
    + exists s'. repeat split; try assumption; try apply Hok'; congruence.
  - (* the whole sentence: the terminator finds the buffer full *)
    rewrite take_ge by (rewrite length_app; cbn [length]; lia).
    rewrite feed_app.
    destruct (feed_inner body s1) as (s' & Hfeed & Hok' & Hf' & Hc' & Hi');
      try assumption.
    + rewrite Hi1. unfold MINMEA_MAX_SENTENCE_LENGTH. lia.
    + rewrite Hfeed. cbn [mbind option_bind feed].
      rewrite uartRX_total by assumption. cbn [mbind option_bind].
      assert (Hfull : index s' = MINMEA_MAX_SENTENCE_LENGTH)
        by (rewrite Hi', Hi1; unfold MINMEA_MAX_SENTENCE_LENGTH; lia).
      assert (Hsame : uartRX_next x0a s' = s').
      { unfold uartRX_next. cbn [Byte.eqb]. rewrite Hc', Hfull.
        cbn. destruct s'; cbn in *; congruence. }
      rewrite Hsame. exists s'. repeat split; try apply Hok'; congruence.
Qed.

Lemma framer0_ok : framer_ok framer0.
Proof. unfold framer_ok. cbn. repeat split; lia. Qed.

(** [strstr] finds in a longer string what it finds in a shorter one. *)
Lemma starts_with_app (needle s t : list byte) :
  starts_with needle s = true -> starts_with needle (s ++ t) = true.
Proof.
  revert s. induction needle as [| n needle IH]; intros s; [reflexivity |].
  destruct s as [| c s]; cbn [starts_with app]; [discriminate |].
  intros H. apply andb_prop in H. destruct H as [Hc Hs].
  rewrite Hc, (IH _ Hs). reflexivity.
Qed.

Lemma find_from_app (needle s t : list byte) (off : nat) :
  is_Some (find_from needle s off) -> is_Some (find_from needle (s ++ t) off).
Proof.
  revert off. induction s as [| c s IH]; intros off.
  - intros H. cbn [app].
    assert (E : starts_with needle [] = true).
    { cbn [find_from] in H. destruct (starts_with needle []);
        [reflexivity | destruct H; discriminate]. }
    pose proof (starts_with_app needle [] t E) as Ht. cbn [app] in Ht.
    destruct t; cbn [find_from]; rewrite Ht; eauto.
  - cbn [find_from app]. destruct (starts_with needle (c :: s)) eqn:E.
    + intros _. change (c :: s ++ t) with ((c :: s) ++ t).
      rewrite (starts_with_app _ _ t E). eauto.
    + intros H. destruct (starts_with needle (c :: s ++ t)); [eauto |].
      apply IH, H.
Qed.

Lemma find_from_off (needle s : list byte) (off off' : nat) :
  is_Some (find_from needle s off) -> is_Some (find_from needle s off').
Proof.
  revert off off'. induction s as [| c s IH]; intros off off';
    cbn [find_from]; destruct (starts_with needle _); eauto.
Qed.

Lemma find_from_cons (needle s : list byte) (c : byte) (off : nat) :
  is_Some (find_from needle s off) -> is_Some (find_from needle (c :: s) off).
Proof.
  intros H. cbn [find_from]. destruct (starts_with needle (c :: s)); [eauto |].
  eapply find_from_off, H.
Qed.

(** Bytes that are not NUL all belong to the C string. *)
Lemma cstring_app (a t : list byte) :
  Forall (fun c => c <> x00) a -> cstring (a ++ t) = a ++ cstring t.
Proof.
  induction 1 as [| c a Hc Ha IH]; [reflexivity |].
  cbn [cstring app]. rewrite (byte_eqb_neq _ _ Hc), IH. reflexivity.
Qed.

(** The inner bytes of a sentence land in [uartBuf] one after the other,
    from [index] on; what lies behind them stays. *)
Lemma feed_inner_buffer (body : list byte) (s : framer) (i : nat) :
  framer_ok s -> copying s = true -> index s = Z.of_nat i ->
  (i + length body <= 80)%nat ->
  Forall (fun c => c <> "$"%byte /\ c <> x0a) body ->
  exists s', feed s body = Some s' /\ framer_ok s' /\
    frameBuf s' = frameBuf s /\ copying s' = true /\
    index s' = Z.of_nat (i + length body) /\
    uartBuf s' = take i (uartBuf s) ++ body ++
                 drop (i + length body) (uartBuf s).
Proof.
  revert s i. induction body as [| ch body IH]; intros s i Hok Hc Hi Hlen Hb.
  - exists s. cbn [length app]. rewrite Nat.add_0_r, take_drop.
    repeat split; try assumption; try apply Hok.
  - apply Forall_cons in Hb. destruct Hb as [[Hstart Hend] Hb].
    cbn [length] in Hlen.
    cbn [feed]. rewrite uartRX_total by assumption. cbn [mbind option_bind].
    assert (Hnext : uartRX_next ch s =
              {| uartBuf := <[i := ch]> (uartBuf s); frameBuf := frameBuf s;
                 copying := true; index := Z.of_nat (S i) |}).
    { unfold uartRX_next.
      rewrite (byte_eqb_neq _ _ Hstart), (byte_eqb_neq _ _ Hend), Hc, Hi.
      unfold MINMEA_MAX_SENTENCE_LENGTH.
      destruct (Z.ltb_spec (Z.of_nat i) 80); [| lia].
      cbn [andb]. rewrite Nat2Z.id. f_equal. lia. }
    destruct (IH (uartRX_next ch s) (S i))
      as (s' & Hfeed & Hok' & Hf' & Hc' & Hi' & Hu');
      try (rewrite Hnext; reflexivity); try assumption; try lia.
    + apply uartRX_next_ok, Hok.
    + rewrite Hnext in Hf', Hu'. cbn [frameBuf uartBuf] in Hf', Hu'.
      exists s'. repeat split; try assumption; try apply Hok'.
      * rewrite Hi'. f_equal. cbn [length]. lia.
      * rewrite Hu'. destruct Hok as (Hlu & _).
        unfold MINMEA_MAX_SENTENCE_LENGTH in Hlu.
        rewrite (take_S_r _ _ ch)
          by (apply list_lookup_insert_eq; lia).
        rewrite take_insert_ge by lia.
        rewrite drop_insert_lt by lia.
        rewrite <- app_assoc. cbn [app length].
        replace (S i + length body)%nat with (i + S (length body))%nat by lia.
        reflexivity.
Qed.

(** What [uartRX] does publish: a sentence of at most 80 bytes, free of
    NUL, that contains the marker is copied to the frame buffer, followed
    by whatever the capture buffer held behind it. *)
Lemma uartRX_publishes_marked (body : list byte) (s : framer) :
  framer_ok s ->
  Forall (fun c => c <> "$"%byte /\ c <> x0a) body ->
  Forall (fun c => c <> x00) body ->
  (length body + 2 <= 80)%nat ->
  is_Some (find_from GGA body 0) ->
  exists s', feed s ("$"%byte :: body ++ [x0a]) = Some s' /\
    frameBuf s' = ("$"%byte :: body ++ [x0a]) ++
                  drop (length body + 2) (uartBuf s).
Proof.
  intros Hok Hb Hnul Hlen Hmark.
  cbn [feed]. rewrite uartRX_total by assumption. cbn [mbind option_bind].
  assert (Hok1 : framer_ok (uartRX_next "$" s)) by apply uartRX_next_ok, Hok.
  rewrite feed_app.
  destruct (feed_inner_buffer body (uartRX_next "$" s) 1)
    as (s2 & Hfeed & Hok2 & Hf2 & Hc2 & Hi2 & Hu2);
    try assumption; try reflexivity; try lia.
  rewrite Hfeed. cbn [mbind option_bind feed].
  rewrite uartRX_total by assumption. cbn [mbind option_bind].
  destruct Hok as (Hlu & Hlf & Hidx).
  unfold MINMEA_MAX_SENTENCE_LENGTH in Hlu.
  assert (Hbuf2 : uartBuf s2 =
                  "$"%byte :: body ++ drop (1 + length body) (uartBuf s)).
  { assert (Hs1 : uartBuf (uartRX_next "$" s) =
                  <[0%nat := "$"%byte]> (uartBuf s)) by reflexivity.
    rewrite Hu2, Hs1.
    destruct (uartBuf s) as [| b0 rest]; [cbn in Hlu; lia |].
    reflexivity. }
  set (sentence := "$"%byte :: body ++ [x0a]).
  assert (Hbuf3 : <[S (length body) := x0a]> (uartBuf s2) =
                  sentence ++ drop (length body + 2) (uartBuf s)).
  { rewrite Hbuf2. subst sentence.
    destruct (lookup_lt_is_Some_2 (uartBuf s) (1 + length body)) as [d Hd];
      [lia |].
    rewrite (drop_S _ _ _ Hd).
    replace (S (1 + length body)) with (length body + 2)%nat by lia.
    change ("$"%byte :: body ++ d :: drop (length body + 2) (uartBuf s))
      with (("$"%byte :: body) ++ d :: drop (length body + 2) (uartBuf s)).
    rewrite insert_app_r_alt by (cbn [length]; lia).
    cbn [length]. rewrite Nat.sub_diag.
    cbn [app]. rewrite <- app_assoc. reflexivity. }
  unfold uartRX_next.
  change (Byte.eqb x0a "$") with false. change (Byte.eqb x0a x0a) with true.
  cbv iota. rewrite Hc2, Hi2. unfold MINMEA_MAX_SENTENCE_LENGTH.
  destruct (Z.ltb_spec (Z.of_nat (1 + length body)) 80); [| lia].
  cbn [andb]. rewrite Nat2Z.id. cbn [Nat.add]. rewrite Hbuf3.
  assert (Hfound : is_Some (strstr (sentence ++
                               drop (length body + 2) (uartBuf s)) GGA)).
  { unfold strstr. rewrite cstring_app.
    - apply find_from_app. subst sentence.
      apply find_from_cons, find_from_app, Hmark.
    - subst sentence. constructor; [discriminate |].
      apply Forall_app. split; [assumption |].
      repeat constructor. discriminate. }
  rewrite (bool_decide_eq_true_2 _ Hfound).
  eexists. split; [reflexivity |]. reflexivity.
Qed.

(** From power-on the bytes behind the first sentence are NUL: the frame
    buffer then holds, as a C string, exactly the sentence (a sentence
    shorter than the buffer, so that a NUL follows it). *)
Lemma uartRX_publishes_first_sentence (body : list byte) :
  Forall (fun c => c <> "$"%byte /\ c <> x0a) body ->
  Forall (fun c => c <> x00) body ->
  (length body + 2 < 80)%nat ->
  is_Some (find_from GGA body 0) ->
  exists s', feed framer0 ("$"%byte :: body ++ [x0a]) = Some s' /\
    cstring (frameBuf s') = "$"%byte :: body ++ [x0a].
Proof.
  intros Hb Hnul Hlen Hmark.
  destruct (uartRX_publishes_marked body framer0 framer0_ok Hb Hnul
              (Nat.lt_le_incl _ _ Hlen) Hmark)
    as (s' & Hfeed & Hframe).
  exists s'. split; [exact Hfeed |].
  rewrite Hframe, cstring_app.
  - cbn [framer0 uartBuf]. rewrite drop_replicate.
    destruct (Z.to_nat MINMEA_MAX_SENTENCE_LENGTH - (length body + 2))%nat;
      cbn [replicate cstring]; [| change (Byte.eqb x00 x00) with true];
      cbv iota; apply app_nil_r.
  - constructor; [discriminate |].
    apply Forall_app. split; [assumption |]. repeat constructor. discriminate.
Qed.

(** C4, on two receivable byte streams. [uartRX] looks for the type marker
    with [strstr] in [uartBuf], which still holds the bytes of earlier
    sentences behind the one just received and no terminating NUL of its
    own. (1) After a GGA sentence, the complete sentence [other_sentence],
    which does not contain the marker, is published all the same, because
    [GGA] of the earlier sentence is still in the buffer: the published
    frame changes. (2) After a longer GGA sentence, the frame published
    for [gga_sentence] is that sentence followed by the tail of the longer
    one, not exactly the bytes received. *)
Theorem uartRX_stale_bytes_published :
  strstr other_sentence GGA = None /\
  (exists s1 s2 : framer,
     feed framer0 gga_sentence = Some s1 /\
     cstring (frameBuf s1) = gga_sentence /\
     feed s1 other_sentence = Some s2 /\
     frameBuf s2 <> frameBuf s1 /\
     cstring (frameBuf s2) =
       other_sentence ++ ascii_bytes "GGA,1*29" ++ [x0d; x0a]) /\
  (exists s1 s2 : framer,
     feed framer0 gga_longer = Some s1 /\
     feed s1 gga_sentence = Some s2 /\
     cstring (frameBuf s2) <> gga_sentence /\
     cstring (frameBuf s2) =
       gga_sentence ++ ascii_bytes "*29" ++ [x0d; x0a]).
Proof.
  split; [vm_compute; reflexivity |]. split.
  - eexists _, _.
    split; [vm_compute; reflexivity |].
    split; [vm_compute; reflexivity |].
    split; [vm_compute; reflexivity |].
    split; [vm_compute; discriminate | vm_compute; reflexivity].
  - eexists _, _.
    split; [vm_compute; reflexivity |].
    split; [vm_compute; reflexivity |].
    split; [vm_compute; discriminate | vm_compute; reflexivity].
Qed.

(** C5, on a receivable byte stream. A sentence of 101 bytes is not
    published when its terminator arrives, but its first 80 bytes stay in
    [uartBuf]; [uartRX] neither clears the buffer nor terminates what it
    captures. The next complete sentence, [other_sentence], which does not
    contain the marker, is then published because [strstr] finds the marker
    of the over-long sentence behind it: the frame buffer receives
    [other_sentence] followed by bytes 3 to 79 of the over-long sentence. A
    sentence that exceeded the capacity is thus published in part. *)
Theorem uartRX_overlong_bytes_published :
  (Z.to_nat MINMEA_MAX_SENTENCE_LENGTH < length overlong_sentence)%nat /\
  strstr other_sentence GGA = None /\
  (exists s1 s2 : framer,
     feed framer0 overlong_sentence = Some s1 /\
     frameBuf s1 = frameBuf framer0 /\
     feed s1 other_sentence = Some s2 /\
     frameBuf s2 = other_sentence ++ take 77 (drop 3 overlong_sentence)).
Proof.
  split; [vm_compute; lia |]. split; [vm_compute; reflexivity |].
  eexists _, _.
  split; [vm_compute; reflexivity |].
  split; [vm_compute; reflexivity |].
  split; [vm_compute; reflexivity |].
  vm_compute. reflexivity.
Qed.

(** ** The telemetry packet *)

Lemma le_bytes_length (n : nat) (x : Z) : length (le_bytes n x) = n.
Proof.
  revert x. induction n as [| n IH]; intros x; cbn [le_bytes length];
    [reflexivity | rewrite IH; reflexivity].
Qed.

(** The bytes of a scalar hold it modulo [256^n]. *)
Lemma le_value_le_bytes (n : nat) (x : Z) :
  le_value (le_bytes n x) = x mod 256 ^ Z.of_nat n.
Proof.
  revert x. induction n as [| n IH]; intros x.
  - cbn. rewrite Z.mod_1_r. reflexivity.
  - cbn [le_bytes le_value]. rewrite IH.
    rewrite Nat2Z.inj_succ, Z.pow_succ_r by lia.
    rewrite Z.rem_mul_r by lia. reflexivity.
Qed.

Lemma image_uint8 (x : Z) : is_uint8 x -> le_value (le_bytes 1 x) = x.
Proof.
  intros Hx. rewrite le_value_le_bytes. apply Z.mod_small. exact Hx.
Qed.

Lemma image_uint32 (x : Z) : is_uint32 x -> le_value (le_bytes 4 x) = x.
Proof.
  intros Hx. rewrite le_value_le_bytes. apply Z.mod_small. exact Hx.
Qed.

Lemma image_int16 (x : Z) :
  is_int16 x -> to_int16 (le_value (le_bytes 2 x)) = x.
Proof.
  intros Hx. rewrite le_value_le_bytes. unfold to_int16, is_int16 in *.
  change (256 ^ Z.of_nat 2) with 65536.
  rewrite Zplus_mod_idemp_l. rewrite Z.mod_small by lia. lia.
Qed.

Lemma image_int32 (x : Z) :
  is_int32 x -> to_int32 (le_value (le_bytes 4 x)) = x.
Proof.
  intros Hx. rewrite le_value_le_bytes. unfold to_int32, is_int32 in *.
  change (256 ^ Z.of_nat 4) with 4294967296.
  rewrite Zplus_mod_idemp_l. rewrite Z.mod_small by lia. lia.
Qed.

(** The byte image has [sizeof(struct packet)] bytes, whatever the member
    values. *)
Lemma packet_bytes_length (p : packet) :
  length (packet_bytes p) = sizeof_packet.
Proof.
  destruct p as [? ? ? ? [[? ?] ?] ? ? ? ? ? [[? ?] ?] [[? ?] ?]].
  reflexivity.
Qed.

(** C6: the byte image of [struct packet] -- the members in declaration
    order, little-endian, no padding -- read back member by member gives
    every member its value again, for every packet whose members hold
    values of their types; the image always has the same length,
    [sizeof(struct packet)] = 40, and it is the whole of what goes to
    [LoRa.write]. *)
Theorem packet_image_roundtrip (p : packet) :
  packet_typed p ->
  packet_of_bytes (packet_bytes p) = p /\
  length (packet_bytes p) = sizeof_packet /\
  sizeof_packet = 40%nat /\
  LoRa_payload p = packet_bytes p.
Proof.
  intros Hp. split; [| split; [apply packet_bytes_length | split]].
  - destruct Hp as [Hseq Hvid Hstate Hms Hutc Hlat Hlng Hsat Hpres Htemp
                    Haccl Hgyro].
    destruct p as [seq_no0 vid0 state0 time_ms0 [[hh mm] ss] lat0 lng0 sat0
                   pres0 temp0 [[ax ay] az] [[gx gy] gz]].
    cbn [seq_no vid state time_ms time_utc lat lng sat pres temp accl gyro
         all3] in *.
    destruct Hutc as (Hhh & Hmm & Hss).
    destruct Haccl as (Hax & Hay & Haz).
    destruct Hgyro as (Hgx & Hgy & Hgz).
    unfold packet_of_bytes, packet_bytes, member.
    cbn [seq_no vid state time_ms time_utc lat lng sat pres temp accl gyro
         array3 le_bytes app firstn skipn].
    change (le_value [seq_no0 mod 256; seq_no0 / 256 mod 256;
                      seq_no0 / 256 / 256 mod 256;
                      seq_no0 / 256 / 256 / 256 mod 256])
      with (le_value (le_bytes 4 seq_no0)).
    change (le_value [time_ms0 mod 256; time_ms0 / 256 mod 256;
                      time_ms0 / 256 / 256 mod 256;
                      time_ms0 / 256 / 256 / 256 mod 256])
      with (le_value (le_bytes 4 time_ms0)).
    change (le_value [lat0 mod 256; lat0 / 256 mod 256;
                      lat0 / 256 / 256 mod 256;
                      lat0 / 256 / 256 / 256 mod 256])
      with (le_value (le_bytes 4 lat0)).
    change (le_value [lng0 mod 256; lng0 / 256 mod 256;
                      lng0 / 256 / 256 mod 256;
                      lng0 / 256 / 256 / 256 mod 256])
      with (le_value (le_bytes 4 lng0)).
    change (le_value [pres0 mod 256; pres0 / 256 mod 256;
                      pres0 / 256 / 256 mod 256;
                      pres0 / 256 / 256 / 256 mod 256])
      with (le_value (le_bytes 4 pres0)).
    repeat match goal with
           | |- context [le_value [?x mod 256; ?x / 256 mod 256]] =>
             change (le_value [x mod 256; x / 256 mod 256])
               with (le_value (le_bytes 2 x))
           | |- context [le_value [?x mod 256]] =>
             change (le_value [x mod 256]) with (le_value (le_bytes 1 x))
           end.
    repeat match goal with
           | H : is_uint32 ?x |- _ => rewrite (image_uint32 x H)
           | H : is_int32 ?x |- _ => rewrite (image_int32 x H)
           | H : is_uint8 ?x |- _ => rewrite (image_uint8 x H)
           | H : is_int16 ?x |- _ => rewrite (image_int16 x H)
           end.
    reflexivity.
  - reflexivity.
  - unfold LoRa_payload. apply take_ge. rewrite packet_bytes_length. lia.
Qed.

(** ** Concrete runs *)

Section Runs.
#[local] Existing Instance qmc_register_map.
#[local] Existing Instance chip_bus.

Lemma QMCGetMag_full_read_returns_generic_witness :
  QMC_ERROR_TIMEOUT <> 6 /\
  fst (fst (QMCReadBytes sensor0 QMC_XOUT_LSB 6 chip_field)) = 6 /\
  QMCGetMag sensor0 (0, 0, 0) chip_field =
    ((-2, (4660, -21555, -1)),
     snd (QMCReadBytes sensor0 QMC_XOUT_LSB 6 chip_field)).
Proof.
  assert (Hcode : QMC_ERROR_TIMEOUT <> 6) by (cbn; lia).
  split; [exact Hcode |]. split; [reflexivity |].
  exact (QMCGetMag_full_read_returns_generic
           sensor0 (0, 0, 0) chip_field
           (snd (QMCReadBytes sensor0 QMC_XOUT_LSB 6 chip_field))
           (snd (fst (QMCReadBytes sensor0 QMC_XOUT_LSB 6 chip_field)))
           eq_refl Hcode).
Defined.

Lemma QMCSetCfg_cache_atomic_witness :
  exists (code : Z) (sensor' : qmc_t) (w2 : qmc_chip),
    QMCSetCfg sensor0 cfg_run (chip0 [Done; TimedOut])
      = ((code, sensor'), w2) /\
    sensor' = sensor0 /\ code = -1.
Proof.
  destruct (QMCSetCfg_cache_atomic
              sensor0 cfg_run (chip0 [Done; TimedOut])
              {| regs := set_reg (fun _ => 0) 9 217; pointer := 9;
                 line := [TimedOut] |}
              {| regs := set_reg (fun _ => 0) 9 217; pointer := 9;
                 line := [] |}
              2 (-1))
    as (code & sensor' & Hrun & _ & Hfail);
    [reflexivity | reflexivity | lia | lia |].
  exists code, sensor'. eexists. split; [exact Hrun |].
  destruct Hfail as [Hs Hc]; [lia |]. split; [exact Hs | exact Hc].
Defined.

Lemma QMCSetCfg_QMCGetCfg_roundtrip_witness :
  exists (sensor1 : qmc_t) (c1 : qmc_chip)
         (code2 : Z) (sensor2 : qmc_t) (c2 : qmc_chip),
    QMCSetCfg sensor0 cfg_run (chip0 [Done; Done; Done; Done; Done; Done])
      = ((0, sensor1), c1) /\
    sensor1 = {| config := pack_control cfg_run |} /\
    QMCGetCfg sensor0 c1 = ((code2, sensor2), c2) /\
    mode (config sensor2) = 1 /\
    ODR (config sensor2) = 2 /\
    OSR (config sensor2) = 3 /\
    scale (config sensor2) = 1.
Proof.
  apply (QMCSetCfg_QMCGetCfg_roundtrip sensor0 sensor0 cfg_run
           (chip0 [Done; Done; Done; Done; Done; Done]) []).
  - vm_compute. reflexivity.
  - vm_compute. discriminate.
  - unfold fields_fit. cbn. lia.
  - reflexivity.
Defined.

Lemma QMCGetCfg_invalid_iff_witness :
  fst (fst (QMCGetCfg sensor0 chip_reserved)) = -3.
Proof.
  assert (Hr : bus_result 1 1) by (unfold bus_result; lia).
  assert (Hok : to_int8 QMC_ERROR_INVALID <> to_int8 QMC_OK)
    by (vm_compute; discriminate).
  assert (Hbus : ~ bus_result 1 (to_int8 QMC_ERROR_INVALID))
    by (unfold bus_result, PICO_ERROR_TIMEOUT, PICO_ERROR_GENERIC;
        change (to_int8 QMC_ERROR_INVALID) with (-3); lia).
  pose proof (QMCGetCfg_invalid_iff sensor0 chip_reserved
                (snd (QMCReadBytes sensor0 QMC_CONTROL1 1 chip_reserved))
                (snd (QMCReadBytes sensor0 QMC_CONTROL2 1
                        (snd (QMCReadBytes sensor0 QMC_CONTROL1 1
                                chip_reserved))))
                1 1 [34] [0] eq_refl eq_refl Hr Hr Hok Hbus) as [_ Hinv].
  exact (Hinv (conj eq_refl (conj eq_refl (or_introl eq_refl)))).
Defined.

Lemma timeout_stub_reports_timeout_witness :
  fst (fst (QMCTest (bus := stub_timeout) sensor0 tt)) = -1 /\
  fst (fst (QMCGetMag (bus := stub_timeout) sensor0 (0, 0, 0) tt)) = -1 /\
  fst (fst (QMCGetMag (bus := stub_timeout) sensor0 (0, 0, 0) tt)) <> -2 /\
  fst (HP203Test (bus := stub_timeout) (fun _ => true) tt) = -1 /\
  fst (fst (HP203GetPres (bus := stub_timeout) (fun _ => 0) 3 0 tt)) = -1 /\
  fst (fst (HP203GetPres (bus := stub_timeout) (fun _ => 0) 3 0 tt)) <> -2.
Proof.
  apply (timeout_stub_reports_timeout (h := qmc_register_map)
           sensor0 (0, 0, 0) (fun _ => true) (fun _ => 0) 3 0).
  - reflexivity.
  - vm_compute. discriminate.
Defined.

End Runs.

Lemma uartRX_in_bounds_and_overlong_dropped_witness :
  (exists s', feed framer0 gga_sentence = Some s' /\ framer_ok s') /\
  (exists s', feed framer0
                (take 102 ("$"%byte :: replicate 100 "a"%byte ++ [x0a]))
              = Some s' /\
              framer_ok s' /\ frameBuf s' = frameBuf framer0).
Proof.
  apply (uartRX_in_bounds_and_overlong_dropped
           framer0 gga_sentence (replicate 100 "a"%byte) 102).
  - unfold framer_ok. cbn. repeat split; lia.
  - apply Forall_replicate. split; discriminate.
  - vm_compute. discriminate.
Defined.

Lemma literal_packet_typed : packet_typed literal_packet.
Proof.
  constructor; cbn;
    unfold is_uint8, is_int16, is_uint32, is_int32; repeat split; lia.
Defined.

Lemma packet_image_roundtrip_witness :
  packet_of_bytes (packet_bytes literal_packet) = literal_packet /\
  length (packet_bytes literal_packet) = sizeof_packet /\
  sizeof_packet = 40%nat /\
  LoRa_payload literal_packet = packet_bytes literal_packet.
Proof.
  apply (packet_image_roundtrip literal_packet). exact literal_packet_typed.
Defined.

(** * Further properties *)

(** ** Bit-level facts *)

(** A low byte and a shifted high byte share no bit: or-ing them adds
    them. *)
Lemma lor_shiftl_8 (lo hi : Z) :
  0 <= lo < 256 -> 0 <= hi -> Z.lor lo (Z.shiftl hi 8) = lo + 256 * hi.
Proof.
  intros Hlo Hhi.
  assert (Hland : Z.land lo (Z.shiftl hi 8) = 0).
  { apply Z.bits_inj'. intros n Hn. rewrite Z.land_spec, Z.bits_0.
    destruct (Z.lt_ge_cases n 8) as [Hlt | Hge].
    - rewrite Z.shiftl_spec_low by lia. apply andb_false_r.
    - replace lo with (lo mod 2 ^ 8) by (apply Z.mod_small; exact Hlo).
      rewrite Z.mod_pow2_bits_high by lia. reflexivity. }
  rewrite <- Z.lxor_lor by exact Hland.
  rewrite <- Z.add_nocarry_lxor by exact Hland.
  rewrite Z.shiftl_mul_pow2 by lia. change (2 ^ 8) with 256. lia.
Qed.

(** The two bytes of an [int16_t], combined by [le16], give it back. *)
Lemma le16_of_bytes (x : Z) :
  is_int16 x -> le16 (x mod 256) (x / 256 mod 256) = x.
Proof.
  intros Hx. unfold le16.
  rewrite lor_shiftl_8
    by (pose proof (Z.mod_pos_bound x 256);
        pose proof (Z.mod_pos_bound (x / 256) 256); lia).
  rewrite <- (image_int16 x Hx) at 3.
  cbn [le_bytes le_value]. f_equal. lia.
Qed.

(** Masking with [1 << k] and testing against 0 reads bit [k]. *)
Lemma mask_is_testbit (reg k : Z) :
  0 <= k -> negb (Z.land reg (Z.shiftl 1 k) =? 0) = Z.testbit reg k.
Proof.
  intros Hk. rewrite Z.shiftl_1_l.
  destruct (Z.testbit reg k) eqn:Hbit.
  - destruct (Z.eqb_spec (Z.land reg (2 ^ k)) 0) as [E | _]; [| reflexivity].
    exfalso.
    assert (Hb : Z.testbit (Z.land reg (2 ^ k)) k = true)
      by (rewrite Z.land_spec, Hbit, Z.pow2_bits_true by lia; reflexivity).
    rewrite E, Z.bits_0 in Hb. discriminate.
  - replace (Z.land reg (2 ^ k)) with 0; [reflexivity |].
    symmetry. apply Z.bits_inj'. intros n Hn.
    rewrite Z.land_spec, Z.bits_0, Z.pow2_bits_eqb by lia.
    destruct (Z.eqb_spec k n) as [<- | _];
      [rewrite Hbit; reflexivity | apply andb_false_r].
Qed.

Lemma reserved_sweep_true : reserved_sweep = true.
Proof. vm_compute. reflexivity. Qed.

(** With the fields apart and clear of bits 1 and 5, the packed control
    byte has no reserved bit set. *)
Lemma control0_valid (so sr ss m o r s : Z) :
  fields_apart 0 so sr ss = true ->
  clear_of_reserved so sr ss = true ->
  0 <= m < 2 -> 0 <= o < 4 -> 0 <= r < 4 -> 0 <= s < 2 ->
  packs_valid so sr ss m o r s = true.
Proof.
  intros Hlay Hclear Hm Ho Hr Hs.
  assert (Hb : 0 <= so < 8 /\ 0 <= sr < 8 /\ 0 <= ss < 8).
  { pose proof Hlay as Hlay'. unfold fields_apart in Hlay'.
    repeat (apply andb_prop in Hlay'; destruct Hlay' as [Hlay' ?]).
    repeat match goal with
           | H : (_ <=? _) = true |- _ => apply Z.leb_le in H
           end.
    repeat split; try assumption;
      eapply field_mask_bound; try eassumption; lia. }
  destruct Hb as (Hso & Hsr & Hss).
  pose proof reserved_sweep_true as Hsweep. unfold reserved_sweep in Hsweep.
  rewrite forallb_forall in Hsweep.
  specialize (Hsweep so (Zrange_In 8 so Hso)).
  rewrite forallb_forall in Hsweep.
  specialize (Hsweep sr (Zrange_In 8 sr Hsr)).
  rewrite forallb_forall in Hsweep.
  specialize (Hsweep ss (Zrange_In 8 ss Hss)).
  rewrite Hlay, Hclear in Hsweep. cbn [andb implb] in Hsweep.
  rewrite forallb_forall in Hsweep.
  specialize (Hsweep m (Zrange_In 2 m Hm)).
  rewrite forallb_forall in Hsweep.
  specialize (Hsweep o (Zrange_In 4 o Ho)).
  rewrite forallb_forall in Hsweep.
  specialize (Hsweep r (Zrange_In 4 r Hr)).
  rewrite forallb_forall in Hsweep.
  exact (Hsweep s (Zrange_In 2 s Hs)).
Qed.

Section DriverMore.
Context {W : Type} {bus : i2c_bus W} {h : qmc5883l_h}.

(** X1: [QMCGetStatus], when its read reports 1 byte, returns 0 and sets
    each flag to one bit of the status byte -- [dataReady] to bit
    [QMC_DRDY], [dataOverflow] to bit [QMC_DOVL], [dataSkip] to bit
    [QMC_DSKIP] -- whatever the other bits are. When the read reports
    anything else, the caller's status is left untouched and the value
    returned is [QMC_ERROR_TIMEOUT] exactly for the bus result -1 and
    [QMC_ERROR_GENERIC] for every other result. *)
Theorem QMCGetStatus_flags_are_bits
  (sensor : qmc_t) (status : qmc_status) (w w' : W)
  (r : Z) (buffer : list Z) :
  QMCReadBytes sensor QMC_STATUS 1 w = ((r, buffer), w') ->
  -128 <= r < 128 ->
  0 <= QMC_DRDY -> 0 <= QMC_DOVL -> 0 <= QMC_DSKIP ->
  (r = 1 ->
   QMCGetStatus sensor status w =
     ((0, {| dataReady := Z.testbit (byte_at buffer 0) QMC_DRDY;
             dataOverflow := Z.testbit (byte_at buffer 0) QMC_DOVL;
             dataSkip := Z.testbit (byte_at buffer 0) QMC_DSKIP |}), w')) /\
  (r <> 1 ->
   QMCGetStatus sensor status w =
     ((to_int8 (if r =? -1 then QMC_ERROR_TIMEOUT else QMC_ERROR_GENERIC),
       status), w')).
Proof.
  intros Hread Hr Hd Ho Hs. unfold QMCGetStatus.
  rewrite (bind_run _ _ _ _ _ Hread), to_int8_small by exact Hr.
  split.
  - intros ->. change (1 =? 1) with true. cbv iota.
    rewrite !mask_is_testbit by assumption. reflexivity.
  - intros Hne. destruct (Z.eqb_spec r 1); [contradiction | reflexivity].
Qed.

(** X2: [QMCGetTemp] writes [*result] only when both single-byte reads
    report 1 byte, and then returns 0; in every other case [*result] keeps
    its value and the smaller of the two read results is returned. *)
Theorem QMCGetTemp_result
  (sensor : qmc_t) (result : Z) (w w1 w2 : W)
  (r0 r1 : Z) (buffer0 buffer1 : list Z) :
  QMCReadBytes sensor QMC_TEMP_LSB 1 w = ((r0, buffer0), w1) ->
  QMCReadBytes sensor QMC_TEMP_MSB 1 w1 = ((r1, buffer1), w2) ->
  -128 <= r0 < 128 -> -128 <= r1 < 128 ->
  exists (code value : Z),
    QMCGetTemp sensor result w = ((code, value), w2) /\
    (r0 = 1 /\ r1 = 1 ->
       code = 0 /\ value = le16 (byte_at buffer0 0) (byte_at buffer1 0)) /\
    (~ (r0 = 1 /\ r1 = 1) -> code = Z.min r0 r1 /\ value = result).
Proof.
  intros H0 H1 Hr0 Hr1. unfold QMCGetTemp.
  rewrite (bind_run _ _ _ _ _ H0), (bind_run _ _ _ _ _ H1).
  rewrite !to_int8_small by assumption.
  destruct (Z.eqb_spec r0 1), (Z.eqb_spec r1 1);
    cbn [andb]; unfold ret; rewrite ?worst_is_min;
    eexists _, _; (split; [reflexivity |]); split; intros; try lia; auto.
Qed.

(** X3: [QMCGetCfg] never writes the members [pointerRoll],
    [enableInterrupt] and [control] of the cached configuration: whatever
    the bus does, they are afterwards what they were (the raw registers it
    read are not stored). *)
Theorem QMCGetCfg_keeps_control (sensor : qmc_t) (w : W) :
  pointerRoll (config (snd (fst (QMCGetCfg sensor w))))
    = pointerRoll (config sensor) /\
  enableInterrupt (config (snd (fst (QMCGetCfg sensor w))))
    = enableInterrupt (config sensor) /\
  control (config (snd (fst (QMCGetCfg sensor w)))) = control (config sensor).
Proof.
  unfold QMCGetCfg, bind.
  destruct (QMCReadBytes sensor QMC_CONTROL1 1 w) as [[r0 buffer0] w1].
  destruct (QMCReadBytes sensor QMC_CONTROL2 1 w1) as [[r1 buffer1] w2].
  destruct ((to_int8 r0 =? 1) && (to_int8 r1 =? 1)); cbn; auto.
Qed.

(** X17: when its burst read does not report 6 bytes, [QMCGetMag] leaves
    the caller's three components untouched, and returns
    [QMC_ERROR_TIMEOUT] exactly when the bus result equals that code,
    [QMC_ERROR_GENERIC] otherwise. *)
Theorem QMCGetMag_failure
  (sensor : qmc_t) (data : Z * Z * Z) (w w' : W)
  (r : Z) (buffer : list Z) :
  QMCReadBytes sensor QMC_XOUT_LSB 6 w = ((r, buffer), w') ->
  -128 <= r < 128 -> r <> 6 ->
  QMCGetMag sensor data w =
    ((to_int8 (if r =? QMC_ERROR_TIMEOUT then QMC_ERROR_TIMEOUT
               else QMC_ERROR_GENERIC), data), w').
Proof.
  intros Hread Hr Hne. unfold QMCGetMag.
  rewrite (bind_run _ _ _ _ _ Hread), (to_int8_small r Hr).
  destruct (Z.eqb_spec r 6); [contradiction | reflexivity].
Qed.

End DriverMore.

(** ** The driver against a chip whose transfers all complete *)

Section OnQuietChip.
Context {h : qmc5883l_h}.
#[local] Existing Instance chip_bus.

Lemma quiet_write
  (sensor : qmc_t) (reg value : Z) (c : qmc_chip) :
  line c = [] ->
  QMCWriteByte sensor reg value c =
    (2, {| regs := set_reg (regs c) (to_uint8 reg) (to_uint8 value);
           pointer := to_uint8 reg; line := [] |}).
Proof.
  intros Hl. unfold QMCWriteByte. cbn [i2c_write_timeout_per_char_us chip_bus].
  unfold chip_write, next_transfer. rewrite Hl. cbv beta iota.
  rewrite Z.eqb_refl, Hl. reflexivity.
Qed.

Lemma quiet_read
  (sensor : qmc_t) (reg len : Z) (c : qmc_chip) :
  line c = [] ->
  QMCReadBytes sensor reg len c =
    ((len, (fun k => regs c (to_uint8 reg + Z.of_nat k))
             <$> seq 0 (Z.to_nat len)),
     {| regs := regs c; pointer := to_uint8 reg; line := [] |}).
Proof.
  intros Hl. unfold QMCReadBytes, bind.
  cbn [i2c_write_timeout_per_char_us i2c_read_timeout_per_char_us chip_bus].
  unfold chip_write, chip_read, next_transfer.
  repeat (rewrite ?Hl, ?Z.eqb_refl; cbn [line regs pointer]; cbv beta iota).
  reflexivity.
Qed.

Lemma quiet_read1 (sensor : qmc_t) (reg : Z) (c : qmc_chip) :
  line c = [] ->
  QMCReadBytes sensor reg 1 c =
    ((1, [regs c (to_uint8 reg)]),
     {| regs := regs c; pointer := to_uint8 reg; line := [] |}).
Proof.
  intros Hl. rewrite quiet_read by exact Hl.
  change (Z.to_nat 1) with 1%nat. cbn [seq fmap list_fmap Z.of_nat].
  rewrite Z.add_0_r. reflexivity.
Qed.

(** One bus call of a driver function on the chip, by [lem]. *)
Ltac chip_step lem :=
  erewrite bind_run by (apply lem; first [eassumption | reflexivity]);
  cbv beta iota zeta.

(** X4: a register written with [QMCWriteByte] reads back with
    [QMCReadBytes]: the write reports 2 bytes, the read of the same
    register reports 1 byte and delivers the value written (as a byte),
    and the read of any other register delivers what that register held
    before. *)
Theorem QMCWriteByte_QMCReadBytes
  (sensor : qmc_t) (reg reg' value : Z) (c : qmc_chip) :
  line c = [] ->
  to_uint8 reg' <> to_uint8 reg ->
  fst (QMCWriteByte sensor reg value c) = 2 /\
  fst (QMCReadBytes sensor reg 1 (snd (QMCWriteByte sensor reg value c)))
    = (1, [to_uint8 value]) /\
  fst (QMCReadBytes sensor reg' 1 (snd (QMCWriteByte sensor reg value c)))
    = (1, [regs c (to_uint8 reg')]).
Proof.
  intros Hl Hne. rewrite quiet_write by exact Hl. cbn [fst snd].
  rewrite !quiet_read1 by reflexivity. cbn [fst regs]. unfold set_reg.
  rewrite Z.eqb_refl.
  destruct (Z.eqb_spec (to_uint8 reg') (to_uint8 reg)); [contradiction |].
  auto.
Qed.

(** X5: [QMCGetTemp] returns 0 and delivers the signed 16-bit temperature
    whose two's-complement bytes the chip holds, low byte in
    [QMC_TEMP_LSB] and high byte in [QMC_TEMP_MSB], negative values
    included. *)
Theorem QMCGetTemp_signed
  (sensor : qmc_t) (result t : Z) (c : qmc_chip) :
  line c = [] ->
  is_int16 t ->
  regs c (to_uint8 QMC_TEMP_LSB) = t mod 256 ->
  regs c (to_uint8 QMC_TEMP_MSB) = t / 256 mod 256 ->
  fst (QMCGetTemp sensor result c) = (0, t).
Proof.
  intros Hl Ht Hlo Hhi. unfold QMCGetTemp.
  chip_step quiet_read1. chip_step quiet_read1.
  change (to_int8 1 =? 1) with true. cbn [andb ret fst byte_at nth regs].
  rewrite Hlo, Hhi, le16_of_bytes by exact Ht. reflexivity.
Qed.

(** X6: [QMCGetMag] delivers the three signed 16-bit components whose
    two's-complement bytes the chip holds in the six registers from
    [QMC_XOUT_LSB] on, each low byte first. *)
Theorem QMCGetMag_signed
  (sensor : qmc_t) (data : Z * Z * Z) (x y z : Z) (c : qmc_chip) :
  line c = [] ->
  is_int16 x -> is_int16 y -> is_int16 z ->
  (fun k => regs c (to_uint8 QMC_XOUT_LSB + Z.of_nat k)) <$> seq 0 6 =
    le_bytes 2 x ++ le_bytes 2 y ++ le_bytes 2 z ->
  snd (fst (QMCGetMag sensor data c)) = (x, y, z).
Proof.
  intros Hl Hx Hy Hz Hregs. unfold QMCGetMag.
  chip_step quiet_read.
  change (Z.to_nat 6) with 6%nat. rewrite Hregs.
  change (to_int8 6 =? 6) with true.
  cbn [ret fst snd le_bytes app byte_at nth].
  rewrite !le16_of_bytes by assumption. reflexivity.
Qed.

Lemma quiet_QMCSetCfg (sensor : qmc_t) (cfg : qmc_cfg) (c : qmc_chip) :
  line c = [] ->
  QMCSetCfg sensor cfg c =
    ((0, {| config := pack_control cfg |}),
     {| regs := set_reg (set_reg (regs c) (to_uint8 QMC_CONTROL1)
                           (to_uint8 (fst (control (pack_control cfg)))))
                  (to_uint8 QMC_CONTROL2)
                  (to_uint8 (snd (control (pack_control cfg))));
        pointer := to_uint8 QMC_CONTROL2; line := [] |}).
Proof.
  intros Hl. unfold QMCSetCfg.
  chip_step quiet_write. chip_step quiet_write.
  change (to_int8 2 =? 2) with true. reflexivity.
Qed.

Lemma quiet_QMCGetCfg (sensor : qmc_t) (c : qmc_chip) :
  line c = [] ->
  QMCGetCfg sensor c =
    ((to_int8 (if negb (Z.land (regs c (to_uint8 QMC_CONTROL1)) 34 =? 0)
               then QMC_ERROR_INVALID else QMC_OK),
      {| config := decoded (regs c (to_uint8 QMC_CONTROL1)) (config sensor) |}),
     {| regs := regs c; pointer := to_uint8 QMC_CONTROL2; line := [] |}).
Proof.
  intros Hl. unfold QMCGetCfg.
  chip_step quiet_read1. chip_step quiet_read1.
  change (to_int8 1 =? 1) with true. reflexivity.
Qed.

(** X7: a configuration set with [QMCSetCfg] decides what [QMCTest] says
    next: [QMCSetCfg] returns 0, and [QMCTest] then returns
    [QMC_ERROR_STANDBY] when the mode set is [QMC_STANDBY] and 0 (success)
    for every other mode. The header is taken to number [QMC_OK] 0, as
    the [case 0] of [QMCTest] does, and to lay the fields of control
    register 1 apart and clear of the reserved bits 1 and 5. *)
Theorem QMCSetCfg_then_QMCTest
  (sensor : qmc_t) (cfg : qmc_cfg) (c : qmc_chip) :
  line c = [] ->
  control1_fields_apart = true ->
  control1_clear_of_reserved = true ->
  to_uint8 QMC_CONTROL1 <> to_uint8 QMC_CONTROL2 ->
  fields_fit cfg ->
  to_int8 QMC_OK = 0 ->
  fst (fst (QMCSetCfg sensor cfg c)) = 0 /\
  fst (fst (QMCTest (snd (fst (QMCSetCfg sensor cfg c)))
                    (snd (QMCSetCfg sensor cfg c)))) =
    if mode cfg =? QMC_STANDBY then to_int8 QMC_ERROR_STANDBY else 0.
Proof.
  intros Hl Hlay Hclear Hregs (Hm & Ho & Hr & Hs) Hok.
  unfold control1_fields_apart in Hlay.
  unfold control1_clear_of_reserved in Hclear.
  assert (Hsm : QMC_MODE_SHIFT = 0).
  { pose proof Hlay as Hlay'. unfold fields_apart in Hlay'.
    repeat (apply andb_prop in Hlay'; destruct Hlay' as [Hlay' ?]).
    apply Z.eqb_eq. assumption. }
  rewrite Hsm in Hlay.
  pose proof (control0_decodes _ _ _ _ _ _ _ Hlay Hm Ho Hr Hs) as Hdec.
  pose proof (control0_valid _ _ _ _ _ _ _ Hlay Hclear Hm Ho Hr Hs) as Hval.
  unfold decodes in Hdec. unfold packs_valid in Hval.
  repeat (apply andb_prop in Hdec; destruct Hdec as [Hdec ?]).
  apply Z.eqb_eq in Hdec.
  rewrite quiet_QMCSetCfg by exact Hl. cbn [fst snd].
  split; [reflexivity |].
  unfold QMCTest. chip_step quiet_QMCGetCfg.
  cbn [regs]. unfold set_reg.
  destruct (Z.eqb_spec (to_uint8 QMC_CONTROL1) (to_uint8 QMC_CONTROL2));
    [contradiction |].
  rewrite Z.eqb_refl. cbn [pack_control control fst].
  rewrite !to_uint8_idem, Hsm, Hval. cbn [negb]. rewrite Hok.
  change (0 =? 0) with true. cbv iota.
  cbn [config decoded mode]. rewrite Hdec.
  destruct (mode cfg =? QMC_STANDBY); cbn [negb ret fst]; reflexivity.
Qed.

(** X8: [QMCInit] reports nothing about the bus. On a chip that answers
    it writes 1 to [QMC_SETRESET] and returns a session whose cached
    fields are decoded from control register 1; on the bus stub that
    always times out it returns all the same, with the session holding
    whatever the uninitialised [sensor.config] held. *)
Theorem QMCInit_session (cfg_init : qmc_cfg) (c : qmc_chip) :
  line c = [] ->
  to_uint8 QMC_SETRESET <> to_uint8 QMC_CONTROL1 ->
  fst (QMCInit cfg_init c) =
    {| config := decoded (regs c (to_uint8 QMC_CONTROL1)) cfg_init |} /\
  regs (snd (QMCInit cfg_init c)) (to_uint8 QMC_SETRESET) = 1 /\
  QMCInit (bus := stub_timeout) cfg_init tt = ({| config := cfg_init |}, tt).
Proof.
  intros Hl Hne. split; [| split; [| reflexivity]].
  - unfold QMCInit. chip_step quiet_write. chip_step quiet_QMCGetCfg.
    cbn [ret fst regs config]. unfold set_reg.
    destruct (Z.eqb_spec (to_uint8 QMC_CONTROL1) (to_uint8 QMC_SETRESET));
      [congruence | reflexivity].
  - unfold QMCInit. chip_step quiet_write. chip_step quiet_QMCGetCfg.
    cbn [ret snd regs]. unfold set_reg. rewrite Z.eqb_refl. reflexivity.
Qed.

(** X18: a chip whose control register 1 has a reserved bit set makes
    [QMCTest] return [QMC_ERROR_INVALID], whatever its mode bit; the
    cached fields are overwritten with the decoded ones all the same. The
    header's [QMC_ERROR_INVALID] is taken not to be 0. *)
Theorem QMCTest_invalid (sensor : qmc_t) (c : qmc_chip) :
  line c = [] ->
  Z.land (regs c (to_uint8 QMC_CONTROL1)) 34 <> 0 ->
  to_int8 QMC_ERROR_INVALID <> 0 ->
  fst (QMCTest sensor c) =
    (to_int8 QMC_ERROR_INVALID,
     {| config := decoded (regs c (to_uint8 QMC_CONTROL1)) (config sensor) |}).
Proof.
  intros Hl Hres Hinv. unfold QMCTest. chip_step quiet_QMCGetCfg.
  destruct (Z.eqb_spec (Z.land (regs c (to_uint8 QMC_CONTROL1)) 34) 0);
    [contradiction |].
  cbn [negb].
  destruct (Z.eqb_spec (to_int8 QMC_ERROR_INVALID) 0); [contradiction |].
  reflexivity.
Qed.

End OnQuietChip.

(** ** More on the line framer *)

(** X9: two things the framer never does: [index] never passes the
    capacity of the capture buffer, and [copying], once set, is never
    cleared -- after the first start delimiter every byte is captured
    while there is room. *)
Theorem uartRX_index_and_copying (bytes : list byte) (s : framer) :
  framer_ok s ->
  index s <= MINMEA_MAX_SENTENCE_LENGTH ->
  exists s', feed s bytes = Some s' /\
    index s' <= MINMEA_MAX_SENTENCE_LENGTH /\
    (copying s = true -> copying s' = true).
Proof.
  revert s. induction bytes as [| ch bytes IH]; intros s Hok Hidx.
  - exists s. auto.
  - cbn [feed]. rewrite uartRX_total by assumption. cbn [mbind option_bind].
    destruct (IH (uartRX_next ch s)) as (s' & Hfeed & Hidx' & Hcopy').
    + apply uartRX_next_ok, Hok.
    + unfold uartRX_next, MINMEA_MAX_SENTENCE_LENGTH in *.
      destruct (Byte.eqb ch "$"), (copying s); cbn [andb];
        try destruct (Z.ltb_spec 0 80); try destruct (Z.ltb_spec (index s) 80);
        cbn [index]; lia.
    + exists s'. repeat split; try assumption.
      intros Hc. apply Hcopy'. unfold uartRX_next. rewrite Hc.
      destruct (Byte.eqb ch "$"); cbn [andb];
        match goal with
        | |- copying (if ?b then _ else _) = true => destruct b
        end; reflexivity.
Qed.

(** X10: bytes received before the first start delimiter are rejected:
    while [copying] is false, a byte sequence without ['$'] leaves the
    whole state -- both buffers, [copying] and [index] -- as it was. *)
Theorem uartRX_rejects_before_start (bytes : list byte) (s : framer) :
  copying s = false ->
  Forall (fun c => c <> "$"%byte) bytes ->
  feed s bytes = Some s.
Proof.
  intros Hcopy Hbytes. induction Hbytes as [| ch bytes Hch _ IH];
    [reflexivity |].
  cbn [feed]. unfold uartRX.
  rewrite (byte_eqb_neq _ _ Hch), Hcopy. cbn [andb mbind option_bind].
  destruct s as [ub fb cp ix]. cbn in *. subst cp. exact IH.
Qed.

(** X11: the published frame changes only at a terminator: a byte sequence
    without ['\n'], whatever else it holds, leaves [frameBuf] as it was. *)
Theorem uartRX_publishes_only_at_terminator
  (bytes : list byte) (s : framer) :
  framer_ok s ->
  Forall (fun c => c <> x0a) bytes ->
  exists s', feed s bytes = Some s' /\ frameBuf s' = frameBuf s.
Proof.
  intros Hok Hbytes. revert s Hok.
  induction Hbytes as [| ch bytes Hch _ IH]; intros s Hok.
  - exists s. auto.
  - cbn [feed]. rewrite uartRX_total by assumption. cbn [mbind option_bind].
    destruct (IH (uartRX_next ch s)) as (s' & Hfeed & Hframe);
      [apply uartRX_next_ok, Hok |].
    exists s'. split; [exact Hfeed |]. rewrite Hframe.
    unfold uartRX_next. rewrite (byte_eqb_neq _ _ Hch). cbn [andb].
    match goal with
    | |- frameBuf (if ?b then _ else _) = _ => destruct b
    end; reflexivity.
Qed.

(** The state after a complete sentence of at most 80 bytes. *)
Lemma feed_sentence (body : list byte) (s : framer) :
  framer_ok s ->
  Forall (fun c => c <> "$"%byte /\ c <> x0a) body ->
  (length body + 2 <= 80)%nat ->
  exists s', feed s ("$"%byte :: body ++ [x0a]) = Some s' /\
    uartBuf s' = ("$"%byte :: body ++ [x0a]) ++
                 drop (length body + 2) (uartBuf s) /\
    frameBuf s' = (if bool_decide (is_Some (strstr (uartBuf s') GGA))
                   then uartBuf s' else frameBuf s) /\
    copying s' = true /\ index s' = Z.of_nat (length body + 2).
Proof.
  intros Hok Hb Hlen.
  cbn [feed]. rewrite uartRX_total by assumption. cbn [mbind option_bind].
  assert (Hok1 : framer_ok (uartRX_next "$" s)) by apply uartRX_next_ok, Hok.
  rewrite feed_app.
  destruct (feed_inner_buffer body (uartRX_next "$" s) 1)
    as (s2 & Hfeed & Hok2 & Hf2 & Hc2 & Hi2 & Hu2);
    try assumption; try reflexivity; try lia.
  rewrite Hfeed. cbn [mbind option_bind feed].
  rewrite uartRX_total by assumption. cbn [mbind option_bind].
  destruct Hok as (Hlu & Hlf & Hidx).
  unfold MINMEA_MAX_SENTENCE_LENGTH in Hlu.
  assert (Hbuf2 : uartBuf s2 =
                  "$"%byte :: body ++ drop (1 + length body) (uartBuf s)).
  { assert (Hs1 : uartBuf (uartRX_next "$" s) =
                  <[0%nat := "$"%byte]> (uartBuf s)) by reflexivity.
    rewrite Hu2, Hs1.
    destruct (uartBuf s) as [| b0 rest]; [cbn in Hlu; lia |].
    reflexivity. }
  assert (Hbuf3 : <[S (length body) := x0a]> (uartBuf s2) =
                  ("$"%byte :: body ++ [x0a]) ++
                  drop (length body + 2) (uartBuf s)).
  { rewrite Hbuf2.
    destruct (lookup_lt_is_Some_2 (uartBuf s) (1 + length body)) as [d Hd];
      [lia |].
    rewrite (drop_S _ _ _ Hd).
    replace (S (1 + length body)) with (length body + 2)%nat by lia.
    change ("$"%byte :: body ++ d :: drop (length body + 2) (uartBuf s))
      with (("$"%byte :: body) ++ d :: drop (length body + 2) (uartBuf s)).
    rewrite insert_app_r_alt by (cbn [length]; lia).
    cbn [length]. rewrite Nat.sub_diag.
    cbn [app]. rewrite <- app_assoc. reflexivity. }
  unfold uartRX_next.
  change (Byte.eqb x0a "$") with false. change (Byte.eqb x0a x0a) with true.
  cbv iota. rewrite Hc2, Hi2. unfold MINMEA_MAX_SENTENCE_LENGTH.
  destruct (Z.ltb_spec (Z.of_nat (1 + length body)) 80); [| lia].
  cbn [andb]. rewrite Nat2Z.id. cbn [Nat.add]. rewrite Hbuf3.
  eexists. split; [reflexivity |]. cbn [uartBuf frameBuf copying index].
  rewrite Hf2. repeat split; try reflexivity. lia.
Qed.

Lemma sentence_no_nul (body : list byte) :
  Forall (fun c => c <> x00) body ->
  Forall (fun c => c <> x00) ("$"%byte :: body ++ [x0a]).
Proof.
  intros Hnul. constructor; [discriminate |].
  apply Forall_app. split; [assumption |]. repeat constructor. discriminate.
Qed.

(** X12: what decides whether a complete sentence of at most 80 bytes is
    published is a search of the whole capture buffer: the sentence
    followed by the bytes that earlier sentences left behind it. If the
    marker is found there the frame becomes that whole content. If the
    buffer holds a NUL, so that the search ends inside the array, and the
    marker is not found, the frame stays as it was. (A buffer without any
    NUL and without the marker is left out: there [strstr] reads on behind
    the array.) *)
Theorem uartRX_publishes_by_buffer_search (body : list byte) (s : framer) :
  framer_ok s ->
  Forall (fun c => c <> "$"%byte /\ c <> x0a) body ->
  (length body + 2 <= 80)%nat ->
  exists s', feed s ("$"%byte :: body ++ [x0a]) = Some s' /\
    (is_Some (strstr (("$"%byte :: body ++ [x0a]) ++
                      drop (length body + 2) (uartBuf s)) GGA) ->
     frameBuf s' = ("$"%byte :: body ++ [x0a]) ++
                   drop (length body + 2) (uartBuf s)) /\
    (x00 ∈ ("$"%byte :: body ++ [x0a]) ++
           drop (length body + 2) (uartBuf s) ->
     strstr (("$"%byte :: body ++ [x0a]) ++
             drop (length body + 2) (uartBuf s)) GGA = None ->
     frameBuf s' = frameBuf s).
Proof.
  intros Hok Hb Hlen.
  destruct (feed_sentence body s Hok Hb Hlen)
    as (s' & Hfeed & Hu & Hf & _).
  exists s'. split; [exact Hfeed |]. rewrite Hf, Hu. split.
  - intros Hfound. rewrite (bool_decide_eq_true_2 _ Hfound). reflexivity.
  - intros _ Hnone. rewrite bool_decide_eq_false_2; [reflexivity |].
    rewrite Hnone. intros [x Hx]. discriminate.
Qed.

(** X13: the start delimiter resynchronises the framer: whatever bytes
    came before it, a following sentence of at most 80 bytes that holds no
    NUL and contains the marker is published, the frame buffer beginning
    with exactly the bytes of the sentence. *)
Theorem uartRX_resynchronises
  (before body : list byte) (s : framer) :
  framer_ok s ->
  Forall (fun c => c <> "$"%byte /\ c <> x0a) body ->
  Forall (fun c => c <> x00) body ->
  (length body + 2 <= 80)%nat ->
  is_Some (find_from GGA body 0) ->
  exists s', feed s (before ++ "$"%byte :: body ++ [x0a]) = Some s' /\
    take (length body + 2) (frameBuf s') = "$"%byte :: body ++ [x0a].
Proof.
  intros Hok Hb Hnul Hlen Hmark.
  destruct (feed_in_bounds before s Hok) as (s1 & Hfeed1 & Hok1).
  destruct (uartRX_publishes_marked body s1 Hok1 Hb Hnul Hlen Hmark)
    as (s' & Hfeed & Hframe).
  exists s'. rewrite feed_app, Hfeed1. cbn [mbind option_bind].
  split; [exact Hfeed |]. rewrite Hframe.
  apply take_app_length'. cbn [length]. rewrite length_app. cbn [length]. lia.
Qed.

(** X14: the published frame is, as a C string, exactly the sentence
    received when the capture buffer holds a NUL right behind the sentence
    -- as it does from power-on, and as long as no longer sentence came
    before. That NUL is copied along: the string ends inside the frame
    buffer. *)
Theorem uartRX_publishes_exactly (body : list byte) (s : framer) :
  framer_ok s ->
  Forall (fun c => c <> "$"%byte /\ c <> x0a) body ->
  Forall (fun c => c <> x00) body ->
  is_Some (find_from GGA body 0) ->
  uartBuf s !! (length body + 2)%nat = Some x00 ->
  exists s', feed s ("$"%byte :: body ++ [x0a]) = Some s' /\
    cstring (frameBuf s') = "$"%byte :: body ++ [x0a] /\
    frameBuf s' !! (length body + 2)%nat = Some x00.
Proof.
  intros Hok Hb Hnul Hmark Htail.
  assert (Hlen : (length body + 2 <= 80)%nat).
  { apply lookup_lt_Some in Htail. destruct Hok as (Hlu & _).
    unfold MINMEA_MAX_SENTENCE_LENGTH in Hlu. lia. }
  destruct (uartRX_publishes_marked body s Hok Hb Hnul Hlen Hmark)
    as (s' & Hfeed & Hframe).
  exists s'. split; [exact Hfeed |].
  rewrite Hframe, (drop_S _ _ _ Htail). split.
  - rewrite cstring_app by (apply sentence_no_nul, Hnul).
    cbn [cstring]. change (Byte.eqb x00 x00) with true. cbv iota.
    apply app_nil_r.
  - apply list_lookup_middle. cbn [length]. rewrite length_app.
    cbn [length]. lia.
Qed.

(** X15: a complete sentence that does not contain the marker is dropped
    -- the published frame stays as it was -- when the capture buffer
    holds a NUL right behind the sentence, as it does from power-on: the
    search of [strstr] ends there, inside the array. *)
Theorem uartRX_drops_unmarked (body : list byte) (s : framer) :
  framer_ok s ->
  Forall (fun c => c <> "$"%byte /\ c <> x0a) body ->
  Forall (fun c => c <> x00) body ->
  strstr ("$"%byte :: body ++ [x0a]) GGA = None ->
  uartBuf s !! (length body + 2)%nat = Some x00 ->
  exists s', feed s ("$"%byte :: body ++ [x0a]) = Some s' /\
    frameBuf s' = frameBuf s.
Proof.
  intros Hok Hb Hnul Hnone Htail.
  assert (Hlen : (length body + 2 <= 80)%nat).
  { apply lookup_lt_Some in Htail. destruct Hok as (Hlu & _).
    unfold MINMEA_MAX_SENTENCE_LENGTH in Hlu. lia. }
  destruct (feed_sentence body s Hok Hb Hlen)
    as (s' & Hfeed & Hu & Hf & _).
  exists s'. split; [exact Hfeed |]. rewrite Hf, Hu.
  rewrite bool_decide_eq_false_2; [reflexivity |].
  unfold strstr in *.
  rewrite (drop_S _ _ _ Htail).
  rewrite cstring_app by (apply sentence_no_nul, Hnul).
  cbn [cstring]. change (Byte.eqb x00 x00) with true. cbv iota.
  rewrite <- (app_nil_r ("$"%byte :: body ++ [x0a])) in Hnone at 1.
  rewrite cstring_app in Hnone by (apply sentence_no_nul, Hnul).
  cbn [cstring] in Hnone. rewrite Hnone.
  intros [x Hx]. discriminate.
Qed.

(** ** The vehicle id *)

Lemma lxor_byte (a b : Z) : is_uint8 a -> is_uint8 b -> is_uint8 (Z.lxor a b).
Proof.
  unfold is_uint8. intros Ha Hb.
  assert (Hnn : 0 <= Z.lxor a b) by (apply Z.lxor_nonneg; lia).
  split; [exact Hnn |].
  destruct (Z.eq_dec (Z.lxor a b) 0) as [-> | Hnz]; [lia |].
  change 256 with (2 ^ 8). apply Z.log2_lt_pow2; [lia |].
  pose proof (Z.log2_lxor a b ltac:(lia) ltac:(lia)) as Hlog.
  assert (Hla : Z.log2 a < 8).
  { destruct (Z.eq_dec a 0) as [-> | ?]; [cbn; lia |].
    apply Z.log2_lt_pow2; lia. }
  assert (Hlb : Z.log2 b < 8).
  { destruct (Z.eq_dec b 0) as [-> | ?]; [cbn; lia |].
    apply Z.log2_lt_pow2; lia. }
  lia.
Qed.

Lemma byte_at_byte (buf : list Z) (k : nat) :
  Forall is_uint8 buf -> is_uint8 (byte_at buf k).
Proof.
  intros Hbuf. unfold byte_at. revert k.
  induction Hbuf as [| b buf Hb _ IH]; intros [| k]; cbn [nth];
    try (unfold is_uint8; lia); auto.
Qed.

(** X16: the vehicle id computed in [hatInit] from the bytes of the flash
    id is itself a byte, so the assignment [p.vid = vid] of [hatTask],
    from the [uint64_t] to the [uint8_t] member of the packet, loses
    nothing. *)
Theorem hatInit_vid_fits (buf : list Z) :
  Forall is_uint8 buf ->
  is_uint8 (hatInit_vid buf) /\
  hatTask_vid (hatInit_vid buf) = hatInit_vid buf.
Proof.
  intros Hbuf.
  assert (Hx : is_uint8
    (Z.lxor (Z.lxor (Z.lxor (Z.lxor (Z.lxor (Z.lxor (Z.lxor
       (byte_at buf 0) (byte_at buf 1)) (byte_at buf 2)) (byte_at buf 3))
       (byte_at buf 4)) (byte_at buf 5)) (byte_at buf 6)) (byte_at buf 7)))
    by (repeat apply lxor_byte; apply byte_at_byte, Hbuf).
  unfold hatInit_vid, hatTask_vid, to_uint8, is_uint8 in *.
  rewrite (Z.mod_small _ (2 ^ 64)) by lia.
  split; [exact Hx | apply Z.mod_small; exact Hx].
Qed.

(** ** Concrete runs of the further properties *)

Section MoreRuns.
#[local] Existing Instance qmc_register_map.
#[local] Existing Instance chip_bus.

Lemma QMCGetStatus_flags_are_bits_witness :
  QMCGetStatus sensor0 status0 chip_values =
    ((0, {| dataReady := true; dataOverflow := false; dataSkip := true |}),
     snd (QMCReadBytes sensor0 QMC_STATUS 1 chip_values)).
Proof.
  destruct (QMCGetStatus_flags_are_bits sensor0 status0 chip_values
              (snd (QMCReadBytes sensor0 QMC_STATUS 1 chip_values))
              1 [5]) as [Hok _];
    [reflexivity | lia | cbn; lia | cbn; lia | cbn; lia |].
  exact (Hok eq_refl).
Defined.

Lemma QMCGetTemp_result_witness :
  exists (code value : Z),
    QMCGetTemp sensor0 77 (chip0 [Done; TimedOut]) =
      ((code, value),
       snd (QMCReadBytes sensor0 QMC_TEMP_MSB 1
              (snd (QMCReadBytes sensor0 QMC_TEMP_LSB 1
                      (chip0 [Done; TimedOut]))))) /\
    code = -1 /\ value = 77.
Proof.
  destruct (QMCGetTemp_result sensor0 77 (chip0 [Done; TimedOut])
              (snd (QMCReadBytes sensor0 QMC_TEMP_LSB 1
                      (chip0 [Done; TimedOut])))
              (snd (QMCReadBytes sensor0 QMC_TEMP_MSB 1
                      (snd (QMCReadBytes sensor0 QMC_TEMP_LSB 1
                              (chip0 [Done; TimedOut])))))
              (-1) 1 [] [0])
    as (code & value & Hrun & _ & Hfail);
    [reflexivity | reflexivity | lia | lia |].
  exists code, value. split; [exact Hrun |].
  destruct Hfail as [Hc Hv]; [lia |]. split; [exact Hc | exact Hv].
Defined.

Lemma QMCWriteByte_QMCReadBytes_witness :
  fst (QMCWriteByte sensor0 9 29 chip_values) = 2 /\
  fst (QMCReadBytes sensor0 9 1 (snd (QMCWriteByte sensor0 9 29 chip_values)))
    = (1, [29]) /\
  fst (QMCReadBytes sensor0 6 1 (snd (QMCWriteByte sensor0 9 29 chip_values)))
    = (1, [5]).
Proof.
  apply (QMCWriteByte_QMCReadBytes sensor0 9 6 29 chip_values).
  - reflexivity.
  - vm_compute. discriminate.
Defined.

Lemma QMCGetTemp_signed_witness :
  fst (QMCGetTemp sensor0 0 chip_values) = (0, -1234).
Proof.
  apply (QMCGetTemp_signed sensor0 0 (-1234) chip_values).
  - reflexivity.
  - unfold is_int16. lia.
  - reflexivity.
  - reflexivity.
Defined.

Lemma QMCGetMag_signed_witness :
  snd (fst (QMCGetMag sensor0 (0, 0, 0) chip_values)) = (300, -2, 0).
Proof.
  apply (QMCGetMag_signed sensor0 (0, 0, 0) 300 (-2) 0 chip_values).
  - reflexivity.
  - unfold is_int16. lia.
  - unfold is_int16. lia.
  - unfold is_int16. lia.
  - reflexivity.
Defined.

Lemma QMCSetCfg_then_QMCTest_witness :
  fst (fst (QMCSetCfg sensor0 cfg_run chip_values)) = 0 /\
  fst (fst (QMCTest (snd (fst (QMCSetCfg sensor0 cfg_run chip_values)))
                    (snd (QMCSetCfg sensor0 cfg_run chip_values)))) = 0.
Proof.
  refine (QMCSetCfg_then_QMCTest sensor0 cfg_run chip_values _ _ _ _ _ _).
  - reflexivity.
  - vm_compute. reflexivity.
  - vm_compute. reflexivity.
  - vm_compute. discriminate.
  - unfold fields_fit. cbn. lia.
  - reflexivity.
Defined.

Lemma QMCInit_session_witness :
  fst (QMCInit cfg0 chip_values) =
    {| config := decoded (regs chip_values (to_uint8 QMC_CONTROL1)) cfg0 |} /\
  regs (snd (QMCInit cfg0 chip_values)) (to_uint8 QMC_SETRESET) = 1 /\
  QMCInit (bus := stub_timeout) cfg0 tt = ({| config := cfg0 |}, tt).
Proof.
  apply (QMCInit_session cfg0 chip_values).
  - reflexivity.
  - vm_compute. discriminate.
Defined.

Lemma QMCGetMag_failure_witness :
  QMCGetMag sensor0 (1, 2, 3) (chip0 [Done; TimedOut]) =
    ((-1, (1, 2, 3)),
     snd (QMCReadBytes sensor0 QMC_XOUT_LSB 6 (chip0 [Done; TimedOut]))).
Proof.
  refine (QMCGetMag_failure sensor0 (1, 2, 3) (chip0 [Done; TimedOut])
            (snd (QMCReadBytes sensor0 QMC_XOUT_LSB 6
                    (chip0 [Done; TimedOut])))
            (-1) [] _ _ _); [reflexivity | lia | lia].
Defined.

Lemma QMCTest_invalid_witness :
  fst (QMCTest sensor0 chip_reserved) =
    (-3, {| config := decoded 34 cfg0 |}).
Proof.
  refine (QMCTest_invalid sensor0 chip_reserved _ _ _).
  - reflexivity.
  - vm_compute. discriminate.
  - vm_compute. discriminate.
Defined.

End MoreRuns.

(** Closes a [Forall] over an explicit list of bytes. *)
Ltac forall_bytes :=
  vm_compute;
  repeat (constructor; [first [discriminate | split; discriminate] |]);
  constructor.

Lemma uartRX_index_and_copying_witness :
  exists s', feed framer0 gga_sentence = Some s' /\
    index s' <= MINMEA_MAX_SENTENCE_LENGTH /\
    (copying framer0 = true -> copying s' = true).
Proof.
  apply (uartRX_index_and_copying gga_sentence framer0).
  - unfold framer_ok. cbn. repeat split; lia.
  - vm_compute. discriminate.
Defined.

Lemma uartRX_rejects_before_start_witness :
  feed framer0 line_noise = Some framer0.
Proof.
  apply (uartRX_rejects_before_start line_noise framer0).
  - reflexivity.
  - forall_bytes.
Defined.

Lemma uartRX_publishes_only_at_terminator_witness :
  exists s', feed framer0 ("$"%byte :: body_gga) = Some s' /\
             frameBuf s' = frameBuf framer0.
Proof.
  apply (uartRX_publishes_only_at_terminator ("$"%byte :: body_gga) framer0).
  - unfold framer_ok. cbn. repeat split; lia.
  - forall_bytes.
Defined.

Lemma uartRX_publishes_by_buffer_search_witness :
  exists s', feed framer0 ("$"%byte :: body_gga ++ [x0a]) = Some s' /\
    (is_Some (strstr (("$"%byte :: body_gga ++ [x0a]) ++
                      drop (length body_gga + 2) (uartBuf framer0)) GGA) ->
     frameBuf s' = ("$"%byte :: body_gga ++ [x0a]) ++
                   drop (length body_gga + 2) (uartBuf framer0)) /\
    (x00 ∈ ("$"%byte :: body_gga ++ [x0a]) ++
           drop (length body_gga + 2) (uartBuf framer0) ->
     strstr (("$"%byte :: body_gga ++ [x0a]) ++
             drop (length body_gga + 2) (uartBuf framer0)) GGA = None ->
     frameBuf s' = frameBuf framer0).
Proof.
  apply (uartRX_publishes_by_buffer_search body_gga framer0).
  - unfold framer_ok. cbn. repeat split; lia.
  - forall_bytes.
  - vm_compute. lia.
Defined.

Lemma uartRX_resynchronises_witness :
  exists s', feed framer0 (line_noise ++ "$"%byte :: body_gga ++ [x0a])
             = Some s' /\
    take (length body_gga + 2) (frameBuf s') = "$"%byte :: body_gga ++ [x0a].
Proof.
  apply (uartRX_resynchronises line_noise body_gga framer0).
  - unfold framer_ok. cbn. repeat split; lia.
  - forall_bytes.
  - forall_bytes.
  - vm_compute. lia.
  - vm_compute. eexists. reflexivity.
Defined.

Lemma uartRX_publishes_exactly_witness :
  exists s', feed framer0 ("$"%byte :: body_gga ++ [x0a]) = Some s' /\
    cstring (frameBuf s') = "$"%byte :: body_gga ++ [x0a] /\
    frameBuf s' !! (length body_gga + 2)%nat = Some x00.
Proof.
  apply (uartRX_publishes_exactly body_gga framer0).
  - unfold framer_ok. cbn. repeat split; lia.
  - forall_bytes.
  - forall_bytes.
  - vm_compute. eexists. reflexivity.
  - reflexivity.
Defined.

Lemma uartRX_drops_unmarked_witness :
  exists s', feed framer0 ("$"%byte :: body_other ++ [x0a]) = Some s' /\
    frameBuf s' = frameBuf framer0.
Proof.
  apply (uartRX_drops_unmarked body_other framer0).
  - unfold framer_ok. cbn. repeat split; lia.
  - forall_bytes.
  - forall_bytes.
  - reflexivity.
  - reflexivity.
Defined.

Lemma hatInit_vid_fits_witness :
  is_uint8 (hatInit_vid flash_id) /\
  hatTask_vid (hatInit_vid flash_id) = hatInit_vid flash_id.
Proof.
  apply (hatInit_vid_fits flash_id).
  repeat (constructor; [unfold is_uint8; lia |]). constructor.
Defined.
